(** * The offer bandit of ExitZero: src/lib/q-learning-bandit.ts

    A shallow embedding of the class [QLearningBandit] and of the
    properties its specification states about it.

    Modelling conventions.
    - A JavaScript [number] is an exact rational or [NaN].  Rounding and the
      infinities of IEEE doubles are outside this model; [NaN] is kept
      because arithmetic on a missing property ([undefined]) produces it.
    - The two [Record<string, number>] objects are finite maps from property
      names to numbers; a property read is a lookup, [None] standing for
      [undefined].  The maps hold the own properties; the objects are
      plain ones, so a name they do not own is looked up on
      [Object.prototype]: an assignment to [__proto__] goes to the setter
      found there, a read finds the methods found there, and a call of
      [hasOwnProperty] goes through the object.
    - A method runs on the instance it is called on: it receives [this],
      and gives back how it completed (normally or by throwing), the
      instance afterwards and what it wrote with [console.warn].
    - [new Date()] and [Math.random()] read the outside world: the clock
      reading and the random draws are arguments of the methods that use
      them. *)

From Stdlib Require Import QArith Qround Lqa.
From stdpp Require Import gmap strings list fin_maps.

#[local] Set Warnings "-clear-no-such-hyp".

Local Open Scope Q_scope.
Local Open Scope string_scope.

(** ** Numbers *)

Inductive number : Type :=
  | Num (q : Q)
  | NaN.

(** [ToNumber] applied to the result of a property read, given as the
    lookup among the own properties: what is not an own property reads as
    [undefined] or as a method of [Object.prototype], and either converts
    to [NaN]. *)
Definition ToNumber (v : option number) : number :=
  match v with
  | Some n => n
  | None => NaN
  end.

Definition lift2 (f : Q -> Q -> Q) (a b : number) : number :=
  match a, b with
  | Num x, Num y => Num (f x y)
  | _, _ => NaN
  end.

Definition num_add : number -> number -> number := lift2 Qplus.
Definition num_sub : number -> number -> number := lift2 Qminus.
Definition num_mul : number -> number -> number := lift2 Qmult.

(** Every division of the source sits under a [> 0] test of its divisor;
    a zero divisor, whose quotient would be an infinity, is mapped to
    [NaN]. *)
Definition num_div (a b : number) : number :=
  match a, b with
  | Num x, Num y => if Qeq_bool y 0 then NaN else Num (x / y)
  | _, _ => NaN
  end.

(** [a < b] and [a > b]: false as soon as one side is [NaN]. *)
Definition num_lt (a b : number) : bool :=
  match a, b with
  | Num x, Num y => negb (Qle_bool y x)
  | _, _ => false
  end.

Definition num_gt (a b : number) : bool := num_lt b a.

Definition Math_max (a b : number) : number :=
  match a, b with
  | Num x, Num y => if Qle_bool x y then Num y else Num x
  | _, _ => NaN
  end.

Definition Math_min (a b : number) : number :=
  match a, b with
  | Num x, Num y => if Qle_bool x y then Num x else Num y
  | _, _ => NaN
  end.

Definition Math_floor (a : number) : number :=
  match a with
  | Num x => Num (inject_Z (Qfloor x))
  | NaN => NaN
  end.

(** The number lies in the closed interval from [lo] to [hi]. *)
Definition within (lo hi : Q) (n : number) : Prop :=
  match n with
  | Num q => lo <= q /\ q <= hi
  | NaN => False
  end.

Definition is_number (n : number) : Prop :=
  match n with
  | Num _ => True
  | NaN => False
  end.

Declare Scope number_scope.
Delimit Scope number_scope with num.
Bind Scope number_scope with number.
Infix "+" := num_add : number_scope.
Infix "-" := num_sub : number_scope.
Infix "*" := num_mul : number_scope.
Infix "/" := num_div : number_scope.

(** ** Plain objects used as maps *)

(** The property names of [Object.prototype].  All are methods, writable
    data properties, but [__proto__], which is an accessor. *)
Definition Object_prototype_names : list string :=
  [ "constructor"; "hasOwnProperty"; "isPrototypeOf"; "propertyIsEnumerable";
    "toLocaleString"; "toString"; "valueOf"; "__proto__";
    "__defineGetter__"; "__defineSetter__"; "__lookupGetter__"; "__lookupSetter__" ].

(** What a property read [o[key]] gives: the own number, else what
    [Object.prototype] has under that name (a function, or for
    [__proto__] the prototype itself), else [undefined]. *)
Inductive JSValue : Type :=
  | Undefined
  | Number (n : number)
  | Inherited (name : string).

Definition property_get (o : gmap string number) (key : string) : JSValue :=
  match o !! key with
  | Some n => Number n
  | None =>
      if bool_decide (key ∈ Object_prototype_names) then Inherited key else Undefined
  end.

(** The assignment [o[key] = v] of a number.  It writes the own property
    when there is one and creates it otherwise; but when [o] has no own
    [__proto__], the assignment to that name calls the setter of
    [Object.prototype], which ignores a value that is not an object. *)
Definition property_set (key : string) (v : number) (o : gmap string number)
    : gmap string number :=
  match o !! key with
  | Some _ => <[key := v]> o
  | None => if String.eqb key "__proto__" then o else <[key := v]> o
  end.

(** ** Arms *)

Inductive OfferType : Type := discount | pause | swap | extension.

Module Offer.
Record t : Type := make {
  id : string;
  type : OfferType;
  value : number;       (* percentage discount, days pause, etc. *)
  cost : number;        (* cost to business (0-1) *)
  description : string
}.
End Offer.

(** A [Date] is its time value, milliseconds since the epoch. *)
Definition Date : Type := Z.

(** ** The snapshot and the instance *)

Module BanditState.
Record t : Type := make {
  qValues : gmap string number;
  actionCounts : gmap string number;
  totalReward : number;
  lastUpdated : Date
}.
End BanditState.

Record QLearningBandit : Type := {
  arms : list Offer.t;
  qValues : gmap string number;
  actionCounts : gmap string number;
  alpha : number;          (* learning rate *)
  gamma : number;          (* discount factor *)
  epsilon : number;        (* exploration rate *)
  totalReward : number;
  lastUpdated : Date
}.

(** Field assignments [this.f = v]. *)
Definition set_qValues (v : gmap string number) (b : QLearningBandit) :=
  {| arms := arms b; qValues := v; actionCounts := actionCounts b;
     alpha := alpha b; gamma := gamma b; epsilon := epsilon b;
     totalReward := totalReward b; lastUpdated := lastUpdated b |}.

Definition set_actionCounts (v : gmap string number) (b : QLearningBandit) :=
  {| arms := arms b; qValues := qValues b; actionCounts := v;
     alpha := alpha b; gamma := gamma b; epsilon := epsilon b;
     totalReward := totalReward b; lastUpdated := lastUpdated b |}.

Definition set_epsilon (v : number) (b : QLearningBandit) :=
  {| arms := arms b; qValues := qValues b; actionCounts := actionCounts b;
     alpha := alpha b; gamma := gamma b; epsilon := v;
     totalReward := totalReward b; lastUpdated := lastUpdated b |}.

Definition set_totalReward (v : number) (b : QLearningBandit) :=
  {| arms := arms b; qValues := qValues b; actionCounts := actionCounts b;
     alpha := alpha b; gamma := gamma b; epsilon := epsilon b;
     totalReward := v; lastUpdated := lastUpdated b |}.

Definition set_lastUpdated (v : Date) (b : QLearningBandit) :=
  {| arms := arms b; qValues := qValues b; actionCounts := actionCounts b;
     alpha := alpha b; gamma := gamma b; epsilon := epsilon b;
     totalReward := totalReward b; lastUpdated := v |}.

(** ** Method calls *)

Inductive JSError : Type :=
  | TypeError (message : string).

Inductive completion (A : Type) : Type :=
  | Normal (a : A)
  | Throw (e : JSError).
Arguments Normal {A} a.
Arguments Throw {A} e.

(** What a call leaves behind. *)
Record run (A : Type) : Type := Run {
  result : completion A;
  this_after : QLearningBandit;
  warned : list string
}.
Arguments Run {A} _ _ _.
Arguments result {A} _.
Arguments this_after {A} _.
Arguments warned {A} _.

Definition method (A : Type) : Type := QLearningBandit -> run A.

Definition ret {A} (a : A) : method A := fun this => Run (Normal a) this [].

Definition bind {A B} (m : method A) (k : A -> method B) : method B :=
  fun this =>
    let r := m this in
    match result r with
    | Normal a =>
        let r' := k a (this_after r) in
        Run (result r') (this_after r') (warned r ++ warned r')
    | Throw e => Run (Throw e) (this_after r) (warned r)
    end.

Definition throw {A} (e : JSError) : method A := fun this => Run (Throw e) this [].
Definition read {A} (f : QLearningBandit -> A) : method A := fun this => Run (Normal (f this)) this [].
Definition assign (f : QLearningBandit -> QLearningBandit) : method unit :=
  fun this => Run (Normal tt) (f this) [].
Definition console_warn (line : string) : method unit :=
  fun this => Run (Normal tt) this [line].

#[export] Instance method_ret : MRet method := @ret.
#[export] Instance method_bind : MBind method := fun A B k m => bind m k.

(** [array.forEach(f)] *)
Fixpoint forEach {A} (f : A -> method unit) (l : list A) : method unit :=
  match l with
  | [] => mret tt
  | x :: rest => f x ;; forEach f rest
  end.

(** [array.reduce(f)] without an initial value: the first element is the
    initial accumulator, and the empty array is a [TypeError]. *)
Definition reduce {A} (f : A -> A -> A) (l : list A) : method A :=
  match l with
  | [] => throw (TypeError "Reduce of empty array with no initial value")
  | x :: rest => mret (fold_left f rest x)
  end.

(** [array[i]] for a number [i]: an element when [i] is an index of the
    array, [undefined] otherwise. *)
Definition array_get {A} (l : list A) (i : number) : option A :=
  match i with
  | Num q =>
      if Qeq_bool q (inject_Z (Qfloor q)) && (0 <=? Qfloor q)%Z
      then l !! Z.to_nat (Qfloor q)
      else None
  | NaN => None
  end.

(** The call [o.hasOwnProperty(key)].  The method is looked up on [o]
    first: an own property of that name holds a number, and calling a
    number throws. *)
Definition hasOwnProperty (o : gmap string number) (key : string) : method bool :=
  match o !! "hasOwnProperty" with
  | Some _ => throw (TypeError "this.qValues.hasOwnProperty is not a function")
  | None => mret (bool_decide (is_Some (o !! key)))
  end.

(** ** The class QLearningBandit *)

Inductive UserResponse : Type := accepted | declined | ignored.

(** [new QLearningBandit(arms, alpha, gamma, epsilon)]; an argument left
    out is [None] and takes the default of its parameter. *)
Definition new_QLearningBandit (arms0 : list Offer.t)
    (alpha0 gamma0 epsilon0 : option number) (now : Date)
    : completion QLearningBandit :=
  let this :=
    {| arms := arms0;
       alpha := default (Num 0.1) alpha0;
       gamma := default (Num 0.9) gamma0;
       epsilon := default (Num 0.1) epsilon0;
       qValues := ∅;
       actionCounts := ∅;
       totalReward := Num 0;
       lastUpdated := now |} in
  (* Initialize Q-values for each arm *)
  let r :=
    forEach (fun arm =>
      assign (fun this =>
        set_qValues (property_set (Offer.id arm) (Num 0) (qValues this)) this) ;;
      assign (fun this =>
        set_actionCounts (property_set (Offer.id arm) (Num 0) (actionCounts this)) this))
      arms0 this in
  match result r with
  | Normal _ => Normal (this_after r)
  | Throw e => Throw e
  end.

(** Update Q-value based on reward *)
Definition update (actionId : string) (reward : number) (now : Date) : method unit :=
  q ← read qValues;
  known ← hasOwnProperty q actionId;
  if negb known then
    console_warn ("Unknown action ID: " ++ actionId)
  else
    oldQ ← read (fun this => ToNumber (qValues this !! actionId));
    a ← read alpha;
    let newQ := (oldQ + a * (reward - oldQ))%num in
    assign (fun this => set_qValues (property_set actionId newQ (qValues this)) this) ;;
    assign (fun this =>
      set_actionCounts
        (property_set actionId (ToNumber (actionCounts this !! actionId) + Num 1)%num
           (actionCounts this)) this) ;;
    assign (fun this => set_totalReward (totalReward this + reward)%num this) ;;
    assign (set_lastUpdated now).

(** Calculate reward based on user response and offer cost *)
Definition calculateReward (actionId : string) (userResponse : UserResponse)
    (mrrValue offerCost : number) : method number :=
  action ← read (fun this =>
    List.find (fun arm => String.eqb (Offer.id arm) actionId) (arms this));
  match action with
  | None => mret (Num 0)
  | Some action =>
      let baseReward :=
        match userResponse with
        | accepted => (mrrValue * (Num 1 - Offer.cost action))%num
        | declined => Num (-0.1)
        | ignored => Num 0
        end in
      (* Apply cost adjustment to prevent over-discounting *)
      let costAdjustedReward := (baseReward - offerCost * Num 0.1)%num in
      mret (Math_max (Num (-1)) (Math_min (Num 1) costAdjustedReward))
  end.

(** Get current state for persistence *)
Definition getState : method BanditState.t :=
  q ← read qValues;
  n ← read actionCounts;
  total ← read totalReward;
  stamp ← read lastUpdated;
  mret (BanditState.make q n total stamp).

(** Load state from persistence *)
Definition loadState (state : BanditState.t) : method unit :=
  assign (set_qValues (BanditState.qValues state)) ;;
  assign (set_actionCounts (BanditState.actionCounts state)) ;;
  assign (set_totalReward (BanditState.totalReward state)) ;;
  assign (set_lastUpdated (BanditState.lastUpdated state)).

(** Decay epsilon for less exploration over time *)
Definition decayEpsilon (decayRate0 : option number) : method unit :=
  let decayRate := default (Num 0.99) decayRate0 in
  assign (fun this =>
    set_epsilon (Math_max (Num 0.01) (epsilon this * decayRate)%num) this).

Module ArmPerformance.
Record t : Type := make {
  id : string;
  type : OfferType;
  qValue : JSValue;
  count : JSValue;
  avgReward : number
}.
End ArmPerformance.

Module Metrics.
Record t : Type := make {
  totalActions : number;
  avgReward : number;
  explorationRate : number;
  armPerformance : list ArmPerformance.t;
  lastUpdated : Date
}.
End Metrics.

(** [Object.keys] lists the own property names of an object in the order
    the engine enumerates them.  The two methods that enumerate an object
    are stated for any such order. *)
Section Enumeration.

Variable Object_keys : gmap string number -> list string.

Definition enumerates_own_properties : Prop :=
  forall o : gmap string number, Object_keys o ≡ₚ elements (dom o).

Definition Object_values (o : gmap string number) : list number :=
  omap (fun key => o !! key) (Object_keys o).

(** Select an action using epsilon-greedy strategy; [random1] and
    [random2] are the two results of [Math.random()], the second one
    being drawn on the exploring branch only. *)
Definition selectAction (random1 random2 : number) : method (option Offer.t) :=
  eps ← read epsilon;
  let shouldExplore := num_lt random1 eps in
  if shouldExplore then
    (* Explore: randomly select an arm *)
    arms ← read arms;
    let randomIndex :=
      Math_floor (random2 * Num (inject_Z (Z.of_nat (length arms))))%num in
    mret (array_get arms randomIndex)
  else
    (* Exploit: select arm with highest Q-value *)
    q ← read qValues;
    bestArmId ← reduce (fun a b =>
        if num_gt (ToNumber (q !! a)) (ToNumber (q !! b)) then a else b)
      (Object_keys q);
    arms ← read arms;
    mret (match List.find (fun arm => String.eqb (Offer.id arm) bestArmId) arms with
          | Some arm => Some arm
          | None => arms !! 0%nat
          end).

(** Get performance metrics *)
Definition getMetrics : method Metrics.t :=
  counts ← read actionCounts;
  q ← read qValues;
  let totalActions := fold_left num_add (Object_values counts) (Num 0) in
  total ← read totalReward;
  let avgReward := if num_gt totalActions (Num 0) then (total / totalActions)%num else Num 0 in
  arms ← read arms;
  let armPerformance :=
    map (fun arm =>
      ArmPerformance.make
        (Offer.id arm)
        (Offer.type arm)
        (property_get q (Offer.id arm))
        (property_get counts (Offer.id arm))
        (if num_gt (ToNumber (counts !! Offer.id arm)) (Num 0)
         then (ToNumber (q !! Offer.id arm) / ToNumber (counts !! Offer.id arm))%num
         else Num 0)) arms in
  eps ← read epsilon;
  stamp ← read lastUpdated;
  mret (Metrics.make totalActions avgReward eps armPerformance stamp).

End Enumeration.

(** Default offer configurations *)
Definition DEFAULT_OFFERS : list Offer.t :=
  [ Offer.make "discount_10" discount (Num 10) (Num 0.1) "10% discount for 3 months";
    Offer.make "discount_20" discount (Num 20) (Num 0.2) "20% discount for 2 months";
    Offer.make "pause_30" pause (Num 30) (Num 0.05) "Pause subscription for 30 days";
    Offer.make "pause_60" pause (Num 60) (Num 0.1) "Pause subscription for 60 days";
    Offer.make "extension_14" extension (Num 14) (Num 0.02) "14-day free extension";
    Offer.make "swap_plan" swap (Num 0) (Num 0.15) "Downgrade to lower plan" ].


(** ** The states the specification speaks about *)

(** The configured arm-id set. *)
Definition arm_ids (b : QLearningBandit) : gset string :=
  list_to_set (Offer.id <$> arms b).

(** Both mappings have exactly the configured arm ids as keys. *)
Definition keys_invariant (b : QLearningBandit) : Prop :=
  dom (qValues b) = arm_ids b /\ dom (actionCounts b) = arm_ids b.

(** One [update] call: arm id, reward and the clock reading of the call. *)
Definition update_call : Type := string * number * Date.

Definition updates (calls : list update_call) : method unit :=
  forEach (fun c => update c.1.1 c.1.2 c.2) calls.

(** The mapping the constructor's loop builds from a mapping [o]. *)
Definition zeroed (l : list Offer.t) (o : gmap string number) : gmap string number :=
  foldl (fun acc arm => property_set (Offer.id arm) (Num 0) acc) o l.

(** The [hasOwnProperty] of the estimate mapping is the inherited method:
    the mapping has no own property of that name. *)
Definition hasOwnProperty_inherited (b : QLearningBandit) : Prop :=
  qValues b !! "hasOwnProperty" = None.

(** No arm is named [__proto__] or [hasOwnProperty]. *)
Definition ordinary_ids (arms0 : list Offer.t) : Prop :=
  ("__proto__" ∉ Offer.id <$> arms0) /\ ("hasOwnProperty" ∉ Offer.id <$> arms0).

(** The calls that can change an instance. *)
Inductive mutation : Type :=
  | Update (actionId : string) (reward : number) (now : Date)
  | LoadState (state : BanditState.t)
  | DecayEpsilon (decayRate : option number).

Definition perform (m : mutation) : method unit :=
  match m with
  | Update actionId reward now => update actionId reward now
  | LoadState state => loadState state
  | DecayEpsilon decayRate => decayEpsilon decayRate
  end.

(** A call that is not a decay by a factor above 1 (or by [NaN]). *)
Definition decays_at_most_one (m : mutation) : Prop :=
  match m with
  | DecayEpsilon decayRate =>
      match default (Num 0.99) decayRate with
      | Num rate => rate <= 1
      | NaN => False
      end
  | _ => True
  end.

(** The enumeration of own property names used in the examples. *)
Definition keys_of_dom (o : gmap string number) : list string := elements (dom o).

(** ** Sample instances *)

Definition arm_A : Offer.t := Offer.make "A" discount (Num 10) (Num 0.1) "ten percent off".
Definition arm_B : Offer.t := Offer.make "B" pause (Num 30) (Num 0.5) "pause for a month".

(** [new QLearningBandit([A, B])] at clock reading 0. *)
Definition two_arms : QLearningBandit :=
  {| arms := [arm_A; arm_B];
     qValues := {[ "A" := Num 0; "B" := Num 0 ]};
     actionCounts := {[ "A" := Num 0; "B" := Num 0 ]};
     alpha := Num 0.1; gamma := Num 0.9; epsilon := Num 0.1;
     totalReward := Num 0; lastUpdated := 0%Z |}.

(** As [two_arms], arm A costing 0.5 instead of 0.1. *)
Definition costly_A : QLearningBandit :=
  {| arms := [Offer.make "A" discount (Num 10) (Num 0.5) "ten percent off"; arm_B];
     qValues := {[ "A" := Num 0; "B" := Num 0 ]};
     actionCounts := {[ "A" := Num 0; "B" := Num 0 ]};
     alpha := Num 0.1; gamma := Num 0.9; epsilon := Num 0.1;
     totalReward := Num 0; lastUpdated := 0%Z |}.

(** [two_arms] after [decayEpsilon(0.5)]. *)
Definition half_decayed : QLearningBandit :=
  this_after (decayEpsilon (Some (Num 0.5)) two_arms).

(** The snapshot of a fresh two-arm instance. *)
Definition fresh_snapshot : BanditState.t :=
  BanditState.make {[ "A" := Num 0; "B" := Num 0 ]} {[ "A" := Num 0; "B" := Num 0 ]}
    (Num 0) 0%Z.

(** An arm whose id is [__proto__], and [new QLearningBandit] of it
    alone, at clock reading 0. *)
Definition proto_arm : Offer.t :=
  Offer.make "__proto__" discount (Num 10) (Num 0.1) "ten percent off".

Definition proto_only : QLearningBandit :=
  {| arms := [proto_arm];
     qValues := ∅;
     actionCounts := ∅;
     alpha := Num 0.1; gamma := Num 0.9; epsilon := Num 0.1;
     totalReward := Num 0; lastUpdated := 0%Z |}.

(** [new QLearningBandit([A, hasOwnProperty])] at clock reading 0: the
    second arm's id becomes an own key of both mappings. *)
Definition shadowing_arm : Offer.t :=
  Offer.make "hasOwnProperty" pause (Num 30) (Num 0.5) "pause for a month".

Definition shadowed : QLearningBandit :=
  {| arms := [arm_A; shadowing_arm];
     qValues := {[ "A" := Num 0; "hasOwnProperty" := Num 0 ]};
     actionCounts := {[ "A" := Num 0; "hasOwnProperty" := Num 0 ]};
     alpha := Num 0.1; gamma := Num 0.9; epsilon := Num 0.1;
     totalReward := Num 0; lastUpdated := 0%Z |}.

(** [new QLearningBandit(DEFAULT_OFFERS)] at clock reading 0, the bandit
    of the request handlers. *)
Definition handlers_bandit : QLearningBandit :=
  {| arms := DEFAULT_OFFERS;
     qValues := zeroed DEFAULT_OFFERS ∅;
     actionCounts := zeroed DEFAULT_OFFERS ∅;
     alpha := Num 0.1; gamma := Num 0.9; epsilon := Num 0.1;
     totalReward := Num 0; lastUpdated := 0%Z |}.

(** [new QLearningBandit([])] at clock reading 0. *)
Definition no_arms : QLearningBandit :=
  {| arms := [];
     qValues := ∅;
     actionCounts := ∅;
     alpha := Num 0.1; gamma := Num 0.9; epsilon := Num 0.1;
     totalReward := Num 0; lastUpdated := 0%Z |}.

(** ** Sequences of update calls *)

(** The number of calls of the sequence that name the arm [armId]. *)
Definition calls_naming (armId : string) (calls : list update_call) : nat :=
  length (filter (fun c => c.1.1 = armId) calls).

(** The rewards of the calls that name one of the arms [arms0], in call
    order. *)
Definition rewards_learned (arms0 : list Offer.t) (calls : list update_call)
    : list number :=
  (fun c => c.1.2)
    <$> filter (fun c => c.1.1 ∈ (list_to_set (Offer.id <$> arms0) : gset string)) calls.

(** [p] to the power [n]. *)
Fixpoint power (p : Q) (n : nat) : Q :=
  match n with
  | O => 1
  | S n' => p * power p n'
  end.

(** Every value estimate lies between [lo] and [hi]. *)
Definition estimates_within (lo hi : Q) (b : QLearningBandit) : Prop :=
  forall key v, qValues b !! key = Some v -> within lo hi v.


(** The estimate stored for [key1] is a number at most the one stored for
    [key2]. *)
Definition estimate_le (o : gmap string number) (key1 key2 : string) : Prop :=
  exists q1 q2, o !! key1 = Some (Num q1) /\ o !! key2 = Some (Num q2) /\ q1 <= q2.

(** ** The caller: src/app/api/cancel-intent/route.ts *)

(** A support ticket row, as far as the handlers read it; a missing
    column is [None]. *)
Module Ticket.
Record t : Type := make {
  sentiment : option string;
  topics : option (list string)
}.
End Ticket.

Module Sentiment.
Inductive t : Type := positive | neutral | negative.
End Sentiment.

(** [Boolean(s)] for a string read from a column: false for a missing one
    and for the empty string. *)
Definition truthy (s : option string) : option string :=
  match s with
  | Some "" => None
  | other => other
  end.

Definition analyzeTicketSentiment (tickets : list Ticket.t) : Sentiment.t :=
  let sentiments := omap (fun t => truthy (Ticket.sentiment t)) tickets in
  if (length sentiments =? 0)%nat then Sentiment.neutral
  else
    let negativeCount := length (filter (fun s => s = "negative") sentiments) in
    let positiveCount := length (filter (fun s => s = "positive") sentiments) in
    if (positiveCount <? negativeCount)%nat then Sentiment.negative
    else if (negativeCount <? positiveCount)%nat then Sentiment.positive
    else Sentiment.neutral.

(** [set.add(x)] on a [Set<string>], kept in insertion order. *)
Definition Set_add (x : string) (s : list string) : list string :=
  if decide (x ∈ s) then s else s ++ [x].

Definition extractTopics (tickets : list Ticket.t) : list string :=
  fold_left (fun topics ticket =>
      match Ticket.topics ticket with
      | Some ticket_topics => fold_left (fun acc topic => Set_add topic acc) ticket_topics topics
      | None => topics
      end)
    tickets [].

(** [calculateChurnRisk(user, usage, tickets)]: [created_at] is the time
    value of [new Date(user.created_at)] ([NaN] for an invalid date) and
    [now] the reading of [Date.now()]. *)
Definition calculateChurnRisk {Usage : Type} (created_at now : number)
    (usage : list Usage) (tickets : list Ticket.t) : number :=
  let risk := Num 0.3 in (* Base risk *)
  (* Usage-based risk *)
  let risk := if (length usage <? 5)%nat then (risk + Num 0.2)%num else risk in
  let risk := if (length usage =? 0)%nat then (risk + Num 0.3)%num else risk in
  (* Support ticket risk *)
  let negativeTickets :=
    length (filter (fun t => Ticket.sentiment t = Some "negative") tickets) in
  let risk := if (2 <? negativeTickets)%nat then (risk + Num 0.2)%num else risk in
  let risk := if (5 <? negativeTickets)%nat then (risk + Num 0.2)%num else risk in
  (* Tenure risk *)
  let tenure := Math_floor ((now - created_at) / Num (1000 * 60 * 60 * 24))%num in
  let risk := if num_lt tenure (Num 7) then (risk + Num 0.2)%num else risk in
  let risk := if num_gt tenure (Num 365) then (risk - Num 0.1)%num else risk in
  Math_max (Num 0) (Math_min (Num 1) risk).

Module GeneratedCopy.
Record t : Type := make {
  headline : string;
  body : string;
  cta : string;
  confidence : number;
  fallbackUsed : bool;
  sentiment : string;
  personalizationFactors : list string
}.
End GeneratedCopy.

(** The object the POST handler caches under [offer:<id>] and the PUT
    handler parses back; [offer] is [None] when [selectAction] returned
    [undefined] ([JSON.stringify] drops the property). *)
Module CachedOffer.
Record t : Type := make {
  userId : string;
  customerId : string;
  offer : option Offer.t;
  copy : GeneratedCopy.t;
  timestamp : string
}.
End CachedOffer.

(** [a || b] for a number [a] that may be missing: [b] when [a] is
    [undefined], 0 or [NaN]. *)
Definition or_else (a : option number) (b : number) : number :=
  match a with
  | Some (Num q) => if Qeq_bool q 0 then b else Num q
  | Some NaN => b
  | None => b
  end.

(** The [response] field of the request body as [calculateReward] treats
    it: its [switch] has no default, so any other value leaves the base
    reward at 0, as 'ignored' does. *)
Definition as_UserResponse (response : string) : UserResponse :=
  if String.eqb response "accepted" then accepted
  else if String.eqb response "declined" then declined
  else ignored.

(** The learning step of the PUT handler (calculate reward for bandit
    learning, update bandit) on the module's bandit, for the parsed cache
    entry [cached].  The cached object has no [mrr] property, so
    [offer.mrr] reads [undefined]. *)
Definition PUT_learn (cached : CachedOffer.t) (response : string) (now : Date)
    : method number :=
  match CachedOffer.offer cached with
  | None => throw (TypeError "Cannot read properties of undefined (reading 'id')")
  | Some offer =>
      reward ← calculateReward (Offer.id offer) (as_UserResponse response)
                 (or_else None (Num 0)) (Offer.cost offer);
      update (Offer.id offer) reward now ;;
      mret reward
  end.

(** ** More sample data *)

Definition sample_calls : list update_call :=
  [("A", Num 1, 1%Z); ("C", Num 1, 2%Z); ("A", Num 0.5, 3%Z); ("B", Num (-0.1), 4%Z)].

(** [two_arms] after a snapshot whose count mapping has no entry for A. *)
Definition uncounted_A : QLearningBandit :=
  set_actionCounts {[ "B" := Num 0 ]} two_arms.

(** [two_arms] after a snapshot taken from an instance with one arm,
    named ghost. *)
Definition foreign_estimates : QLearningBandit :=
  set_actionCounts {[ "ghost" := Num 3 ]} (set_qValues {[ "ghost" := Num 0.5 ]} two_arms).

Definition sample_tickets : list Ticket.t :=
  [ Ticket.make (Some "negative") (Some ["billing"; "speed"]);
    Ticket.make None None;
    Ticket.make (Some "positive") (Some ["speed"]);
    Ticket.make (Some "negative") None ].

Definition sample_cached : CachedOffer.t :=
  CachedOffer.make "user-1" "customer-1" (Some arm_B)
    (GeneratedCopy.make "Stay with us" "Pause instead of leaving" "Pause" (Num 0.8)
       false "neutral" [])
    "2024-01-01T00:00:00.000Z".

(** * Properties *)

Ltac run_method :=
  unfold mbind, mret, method_bind, method_ret, bind, ret, read, assign,
    console_warn, throw; simpl.

(** ** update *)

Lemma property_set_own key v (o : gmap string number) :
  is_Some (o !! key) -> property_set key v o = <[key := v]> o.
Proof. intros [n Hn]. unfold property_set. rewrite Hn. reflexivity. Qed.

Lemma property_set_ordinary key v (o : gmap string number) :
  key <> "__proto__" -> property_set key v o = <[key := v]> o.
Proof.
  intros Hne. unfold property_set. destruct (o !! key); [reflexivity|].
  destruct (String.eqb_spec key "__proto__"); [contradiction | reflexivity].
Qed.

Lemma property_set_other key v (o : gmap string number) other :
  other <> key -> property_set key v o !! other = o !! other.
Proof.
  intros Hne. unfold property_set.
  destruct (o !! key); [apply lookup_insert_ne; congruence|].
  destruct (String.eqb key "__proto__"); [reflexivity|].
  apply lookup_insert_ne; congruence.
Qed.

Lemma hasOwnProperty_call (o : gmap string number) key this :
  o !! "hasOwnProperty" = None ->
  hasOwnProperty o key this = Run (Normal (bool_decide (is_Some (o !! key)))) this [].
Proof. intros Hplain. unfold hasOwnProperty. rewrite Hplain. reflexivity. Qed.

Lemma update_throws b actionId reward now :
  is_Some (qValues b !! "hasOwnProperty") ->
  update actionId reward now b
  = Run (Throw (TypeError "this.qValues.hasOwnProperty is not a function")) b [].
Proof.
  intros [n Hn]. unfold update, hasOwnProperty. run_method. rewrite Hn. reflexivity.
Qed.

Lemma update_unknown b actionId reward now :
  hasOwnProperty_inherited b ->
  qValues b !! actionId = None ->
  update actionId reward now b
  = Run (Normal tt) b [("Unknown action ID: " ++ actionId)].
Proof.
  intros Hplain Hnone. unfold update, hasOwnProperty. run_method.
  rewrite Hplain. run_method.
  rewrite bool_decide_eq_false_2 by (rewrite Hnone; apply is_Some_None).
  reflexivity.
Qed.

Lemma update_known b actionId reward now :
  hasOwnProperty_inherited b ->
  is_Some (qValues b !! actionId) ->
  update actionId reward now b
  = Run (Normal tt)
      {| arms := arms b;
         qValues :=
           <[actionId := (ToNumber (qValues b !! actionId)
                          + alpha b * (reward - ToNumber (qValues b !! actionId)))%num]>
             (qValues b);
         actionCounts :=
           property_set actionId (ToNumber (actionCounts b !! actionId) + Num 1)%num
             (actionCounts b);
         alpha := alpha b; gamma := gamma b; epsilon := epsilon b;
         totalReward := (totalReward b + reward)%num;
         lastUpdated := now |} [].
Proof.
  intros Hplain Hsome. unfold update, hasOwnProperty. run_method.
  rewrite Hplain. run_method.
  rewrite bool_decide_eq_true_2 by exact Hsome. run_method.
  rewrite (property_set_own actionId _ (qValues b) Hsome). reflexivity.
Qed.

(** An [update] call returns normally, or throws and leaves the instance
    as it was. *)
Lemma update_cases b actionId reward now :
  (hasOwnProperty_inherited b /\ result (update actionId reward now b) = Normal tt)
  \/ (is_Some (qValues b !! "hasOwnProperty")
      /\ update actionId reward now b
         = Run (Throw (TypeError "this.qValues.hasOwnProperty is not a function")) b []).
Proof.
  destruct (qValues b !! "hasOwnProperty") as [n|] eqn:Hown.
  - right. split; [eauto|]. apply update_throws. rewrite Hown. eauto.
  - left. split; [exact Hown|].
    destruct (qValues b !! actionId) as [q|] eqn:Hq.
    + rewrite update_known by (try exact Hown; rewrite Hq; eauto). reflexivity.
    + rewrite update_unknown by assumption. reflexivity.
Qed.

Lemma update_completes b actionId reward now :
  hasOwnProperty_inherited b ->
  result (update actionId reward now b) = Normal tt.
Proof.
  intros Hplain. destruct (update_cases b actionId reward now) as [[_ H]|[[n Hn] _]].
  - exact H.
  - unfold hasOwnProperty_inherited in Hplain. congruence.
Qed.

Lemma update_keeps_configuration b actionId reward now :
  let b' := this_after (update actionId reward now b) in
  arms b' = arms b /\ alpha b' = alpha b /\ gamma b' = gamma b
  /\ epsilon b' = epsilon b.
Proof.
  destruct (update_cases b actionId reward now) as [[Hplain _]|[_ ->]].
  - destruct (qValues b !! actionId) as [q|] eqn:Hq.
    + rewrite update_known by (try exact Hplain; rewrite Hq; eauto). simpl. auto.
    + rewrite update_unknown by assumption. simpl. auto.
  - simpl. auto.
Qed.

Lemma update_keeps_hasOwnProperty_inherited b actionId reward now :
  hasOwnProperty_inherited b ->
  hasOwnProperty_inherited (this_after (update actionId reward now b)).
Proof.
  intros Hplain. destruct (qValues b !! actionId) as [q|] eqn:Hq.
  - rewrite update_known by (try exact Hplain; rewrite Hq; eauto).
    unfold hasOwnProperty_inherited in *. cbn [this_after qValues].
    rewrite lookup_insert_ne; [exact Hplain|]. intros ->. congruence.
  - rewrite update_unknown by assumption. exact Hplain.
Qed.

Lemma elem_of_arm_ids_lookup b armId :
  keys_invariant b -> armId ∈ arm_ids b ->
  is_Some (qValues b !! armId) /\ is_Some (actionCounts b !! armId).
Proof.
  intros [Hq Hn] Hin. rewrite <- !elem_of_dom, Hq, Hn. auto.
Qed.

Lemma not_elem_of_arm_ids_lookup b armId :
  keys_invariant b -> armId ∉ arm_ids b -> qValues b !! armId = None.
Proof.
  intros [Hq _] Hout. apply not_elem_of_dom. rewrite Hq. exact Hout.
Qed.

Lemma update_keeps_keys b actionId reward now :
  keys_invariant b -> keys_invariant (this_after (update actionId reward now b)).
Proof.
  intros Hinv.
  destruct (update_cases b actionId reward now) as [[Hplain _]|[_ ->]]; [|exact Hinv].
  destruct (qValues b !! actionId) as [q|] eqn:Hq.
  - assert (Hdom : actionId ∈ dom (qValues b)) by (apply elem_of_dom; eauto).
    destruct Hinv as [Hqs Hns].
    assert (Hcount : is_Some (actionCounts b !! actionId))
      by (apply elem_of_dom; rewrite Hns, <- Hqs; exact Hdom).
    rewrite update_known by (try exact Hplain; rewrite Hq; eauto).
    unfold keys_invariant, arm_ids in *; simpl.
    rewrite (property_set_own _ _ _ Hcount), !dom_insert_L. split.
    + rewrite <- Hqs. set_solver.
    + rewrite Hns, <- Hqs. set_solver.
  - rewrite update_unknown by assumption. exact Hinv.
Qed.

(** ** The constructor *)

Lemma initialize_arms l this :
  forEach (fun arm =>
      assign (fun this =>
        set_qValues (property_set (Offer.id arm) (Num 0) (qValues this)) this) ;;
      assign (fun this =>
        set_actionCounts (property_set (Offer.id arm) (Num 0) (actionCounts this)) this))
    l this
  = Run (Normal tt)
      (set_actionCounts (zeroed l (actionCounts this))
         (set_qValues (zeroed l (qValues this)) this)) [].
Proof.
  revert this. induction l as [|arm l IH]; intros this.
  - destruct this; reflexivity.
  - cbn [forEach]. run_method. rewrite IH. destruct this; reflexivity.
Qed.

Lemma dom_property_set key v (o : gmap string number) :
  dom (property_set key v o) = dom o ∪ ({[key]} ∖ {["__proto__"]}).
Proof.
  unfold property_set. destruct (o !! key) as [n|] eqn:Hkey.
  - assert (key ∈ dom o) by (apply elem_of_dom; eauto).
    rewrite dom_insert_L. set_solver.
  - destruct (String.eqb_spec key "__proto__") as [->|Hne].
    + set_solver.
    + rewrite dom_insert_L. set_solver.
Qed.

Lemma dom_zeroed l (o : gmap string number) :
  dom (zeroed l o) = dom o ∪ (list_to_set (Offer.id <$> l) ∖ {["__proto__"]}).
Proof.
  revert o. induction l as [|arm l IH]; intros o; simpl.
  - set_solver.
  - unfold zeroed in *. simpl. rewrite IH, dom_property_set. set_solver.
Qed.

Lemma new_QLearningBandit_normal arms0 alpha0 gamma0 epsilon0 now :
  new_QLearningBandit arms0 alpha0 gamma0 epsilon0 now
  = Normal
      {| arms := arms0;
         qValues := zeroed arms0 ∅;
         actionCounts := zeroed arms0 ∅;
         alpha := default (Num 0.1) alpha0;
         gamma := default (Num 0.9) gamma0;
         epsilon := default (Num 0.1) epsilon0;
         totalReward := Num 0;
         lastUpdated := now |}.
Proof.
  unfold new_QLearningBandit. rewrite initialize_arms. reflexivity.
Qed.

Lemma new_QLearningBandit_keys arms0 alpha0 gamma0 epsilon0 now b :
  ordinary_ids arms0 ->
  new_QLearningBandit arms0 alpha0 gamma0 epsilon0 now = Normal b ->
  arms b = arms0 /\ keys_invariant b /\ hasOwnProperty_inherited b.
Proof.
  intros [Hproto Hhas]. rewrite new_QLearningBandit_normal. intros [= <-].
  unfold keys_invariant, arm_ids, hasOwnProperty_inherited; simpl.
  rewrite dom_zeroed, dom_empty_L. split; [reflexivity|].
  assert (Hproto' : "__proto__" ∉ (list_to_set (Offer.id <$> arms0) : gset string))
    by (rewrite elem_of_list_to_set; exact Hproto).
  assert (Hhas' : "hasOwnProperty" ∉ (list_to_set (Offer.id <$> arms0) : gset string))
    by (rewrite elem_of_list_to_set; exact Hhas).
  split; [split; set_solver|].
  apply not_elem_of_dom. rewrite dom_zeroed, dom_empty_L. set_solver.
Qed.

Lemma updates_cons c calls b :
  hasOwnProperty_inherited b ->
  updates (c :: calls) b
  = let r := update c.1.1 c.1.2 c.2 b in
    let r' := updates calls (this_after r) in
    Run (result r') (this_after r') (warned r ++ warned r').
Proof.
  intros Hplain. unfold updates. cbn [forEach]. unfold mbind, method_bind, bind.
  rewrite update_completes by exact Hplain. reflexivity.
Qed.

Lemma updates_keep_keys calls b :
  keys_invariant b -> hasOwnProperty_inherited b ->
  keys_invariant (this_after (updates calls b))
  /\ arms (this_after (updates calls b)) = arms b
  /\ result (updates calls b) = Normal tt
  /\ hasOwnProperty_inherited (this_after (updates calls b)).
Proof.
  revert b. induction calls as [|c calls IH]; intros b Hinv Hplain.
  - cbn. auto.
  - rewrite updates_cons by exact Hplain. cbn zeta. cbn [this_after result].
    destruct (IH (this_after (update c.1.1 c.1.2 c.2 b))) as (Hk & Ha & Hr & Hp).
    { apply update_keeps_keys, Hinv. }
    { apply update_keeps_hasOwnProperty_inherited, Hplain. }
    repeat split; try apply Hk; try assumption.
    rewrite Ha. apply update_keeps_configuration.
Qed.

Lemma two_arms_constructed :
  new_QLearningBandit [arm_A; arm_B] None None None 0%Z = Normal two_arms.
Proof. reflexivity. Qed.

Lemma no_arms_constructed :
  new_QLearningBandit [] None None None 0%Z = Normal no_arms.
Proof. reflexivity. Qed.

(** With an arm named hasOwnProperty the constructor stores that key, and
    from then on every [update] throws at its first line, whatever the
    arm id, and leaves the instance as it was. *)
Example shadowed_update_throws :
  new_QLearningBandit [arm_A; shadowing_arm] None None None 0%Z = Normal shadowed
  /\ update "A" (Num 1) 7%Z shadowed
     = Run (Throw (TypeError "this.qValues.hasOwnProperty is not a function")) shadowed []
  /\ update "C" (Num 1) 7%Z shadowed
     = Run (Throw (TypeError "this.qValues.hasOwnProperty is not a function")) shadowed [].
Proof. split; [|split]; vm_compute; reflexivity. Qed.

(** The bandit of the request handlers has ordinary arm ids. *)
Example handlers_bandit_constructed :
  new_QLearningBandit DEFAULT_OFFERS None None None 0%Z = Normal handlers_bandit
  /\ ordinary_ids DEFAULT_OFFERS
  /\ keys_invariant handlers_bandit
  /\ hasOwnProperty_inherited handlers_bandit.
Proof.
  assert (Hids : ordinary_ids DEFAULT_OFFERS)
    by (split; apply (bool_decide_unpack _); vm_compute; reflexivity).
  split; [apply new_QLearningBandit_normal|]. split; [exact Hids|].
  apply (new_QLearningBandit_keys DEFAULT_OFFERS None None None 0%Z handlers_bandit Hids).
  apply new_QLearningBandit_normal.
Qed.

(** The key sets after construction and updates, for ordinary arm ids. *)
Lemma keys_after_updates arms0 alpha0 gamma0 epsilon0 t0 (calls : list update_call) :
  ordinary_ids arms0 ->
  exists b0,
    new_QLearningBandit arms0 alpha0 gamma0 epsilon0 t0 = Normal b0
    /\ let b := this_after (updates calls b0) in
       result (updates calls b0) = Normal tt
       /\ arms b = arms0
       /\ dom (qValues b) = dom (actionCounts b)
       /\ dom (actionCounts b) = list_to_set (Offer.id <$> arms0).
Proof.
  intros Hids.
  destruct (new_QLearningBandit arms0 alpha0 gamma0 epsilon0 t0) as [b0|e] eqn:Hnew.
  2: { rewrite new_QLearningBandit_normal in Hnew. discriminate. }
  exists b0. split; [reflexivity|]. cbn zeta.
  destruct (new_QLearningBandit_keys _ _ _ _ _ _ Hids Hnew) as (Harms & Hinv & Hplain).
  destruct (updates_keep_keys calls b0 Hinv Hplain) as ([Hq Hn] & Ha & Hr & _).
  unfold arm_ids in Hq, Hn. rewrite Ha, Harms in Hq, Hn.
  rewrite Ha, Harms, Hq, Hn. auto.
Qed.

(** ** update on a configured arm *)




(** ** update on an unknown arm *)




(** ** The key sets of the two mappings *)

(** C7, at the failing input: an arm list with the one arm id
    [__proto__].  The constructor's two assignments for that arm create no
    key, so both mappings stay empty while the configured arm-id set is
    not: the key sets differ from the configured set right after
    construction, and [update] for that arm only warns. *)
Theorem proto_arm_gets_no_key :
  new_QLearningBandit [proto_arm] None None None 0%Z = Normal proto_only
  /\ arm_ids proto_only = {["__proto__"]}
  /\ dom (qValues proto_only) = ∅
  /\ dom (actionCounts proto_only) = ∅
  /\ dom (qValues proto_only) <> arm_ids proto_only
  /\ update "__proto__" (Num 1) 7%Z proto_only
     = Run (Normal tt) proto_only ["Unknown action ID: __proto__"].
Proof.
  split; [vm_compute; reflexivity|]. split; [reflexivity|].
  split; [reflexivity|]. split; [reflexivity|]. split.
  - intros Heq.
    assert (Hin : "__proto__" ∈ dom (qValues proto_only))
      by (rewrite Heq; apply (bool_decide_unpack _); vm_compute; reflexivity).
    apply elem_of_dom in Hin. destruct Hin as [v Hv]. vm_compute in Hv. discriminate.
  - vm_compute. reflexivity.
Qed.

(** ** calculateReward *)

Lemma clamp_within (x : number) :
  is_number x -> within (-1) 1 (Math_max (Num (-1)) (Math_min (Num 1) x)).
Proof.
  destruct x as [q|]; [intros _|intros []].
  unfold Math_min. destruct (Qle_bool 1 q) eqn:Hhigh.
  - vm_compute. split; discriminate.
  - unfold Math_max. destruct (Qle_bool (-1) q) eqn:Hlow; unfold within.
    + apply Qle_bool_iff in Hlow.
      assert (Hnot : ~ 1 <= q) by (rewrite <- Qle_bool_iff, Hhigh; discriminate).
      lra.
    + lra.
Qed.

Lemma find_arm_unknown (l : list Offer.t) armId :
  armId ∉ Offer.id <$> l ->
  List.find (fun arm => String.eqb (Offer.id arm) armId) l = None.
Proof.
  induction l as [|arm l IH]; intros Hout; simpl.
  - reflexivity.
  - rewrite fmap_cons, not_elem_of_cons in Hout. destruct Hout as [Hne Hout].
    destruct (String.eqb_spec (Offer.id arm) armId) as [Heq|_].
    + congruence.
    + apply IH, Hout.
Qed.

Lemma find_arm_known (l : list Offer.t) armId arm :
  List.find (fun arm => String.eqb (Offer.id arm) armId) l = Some arm ->
  arm ∈ l /\ Offer.id arm = armId.
Proof.
  intros Hfind. apply find_some in Hfind. destruct Hfind as [Hin Heq].
  split.
  - apply list_elem_of_In, Hin.
  - apply String.eqb_eq, Heq.
Qed.

Lemma calculateReward_reads_only armId response mrrValue offerCost b :
  this_after (calculateReward armId response mrrValue offerCost b) = b
  /\ warned (calculateReward armId response mrrValue offerCost b) = [].
Proof.
  unfold calculateReward. run_method.
  destruct (List.find _ (arms b)); simpl; auto.
Qed.

(** C3. On an instance whose arms carry numeric cost fractions,
    [calculateReward] completes normally with a value in the closed
    interval from -1 to 1, for every arm id (configured or not), every
    user response and every numeric [mrrValue] and [armCostFraction]: in
    particular for every [mrrValue >= 0] and every [armCostFraction]
    between 0 and 1. *)
Theorem calculateReward_bounded b armId response (mrrValue armCostFraction : Q) :
  Forall (fun arm => is_number (Offer.cost arm)) (arms b) ->
  exists reward,
    result (calculateReward armId response (Num mrrValue) (Num armCostFraction) b)
    = Normal reward
    /\ within (-1) 1 reward.
Proof.
  intros Hcosts.
  unfold calculateReward. run_method.
  destruct (List.find _ (arms b)) as [arm|] eqn:Hfind; simpl.
  - eexists. split; [reflexivity|]. apply clamp_within.
    apply find_arm_known in Hfind. destruct Hfind as [Hin _].
    rewrite Forall_forall in Hcosts. specialize (Hcosts arm Hin).
    destruct (Offer.cost arm); [|destruct Hcosts].
    destruct response; exact I.
  - exists (Num 0). split; [reflexivity|]. unfold within. lra.
Qed.

Lemma calculateReward_bounded_witness :
  Forall (fun arm => is_number (Offer.cost arm)) (arms two_arms)
  /\ exists reward,
       result (calculateReward "A" accepted (Num 100) (Num 0.1) two_arms)
       = Normal reward
       /\ within (-1) 1 reward.
Proof.
  assert (Hcosts : Forall (fun arm => is_number (Offer.cost arm)) (arms two_arms))
    by (repeat constructor).
  split; [exact Hcosts|].
  exact (calculateReward_bounded two_arms "A" accepted 100 0.1 Hcosts).
Defined.

(** The scenario of the specification: an accepted offer on arm A with
    100 at stake is clamped to 1; a declined offer on arm B gives
    -0.1 - 0.05. *)
Example calculateReward_scenario :
  result (calculateReward "A" accepted (Num 100) (Num 0.1) two_arms) = Normal (Num 1)
  /\ result (calculateReward "B" declined (Num 100) (Num 0.5) two_arms)
     = Normal (Num (-0.1 - 0.5 * 0.1)).
Proof. split; reflexivity. Qed.

(** C10. When the arm id is not a configured one, [calculateReward]
    completes with exactly 0, whatever the user response, [mrrValue] and
    [armCostFraction] are (neither the cost penalty nor the clamp runs),
    and the instance is as before. *)
Theorem calculateReward_unknown_arm_is_zero b armId response mrrValue armCostFraction :
  armId ∉ arm_ids b ->
  calculateReward armId response mrrValue armCostFraction b
  = Run (Normal (Num 0)) b [].
Proof.
  intros Hout. unfold arm_ids in Hout. rewrite elem_of_list_to_set in Hout.
  unfold calculateReward. run_method.
  rewrite (find_arm_unknown _ _ Hout). reflexivity.
Qed.

Lemma calculateReward_unknown_arm_is_zero_witness :
  ("C" ∉ arm_ids two_arms)
  /\ calculateReward "C" accepted (Num 100) (Num 1) two_arms
     = Run (Normal (Num 0)) two_arms [].
Proof.
  assert (Hout : "C" ∉ arm_ids two_arms)
    by (apply (bool_decide_unpack _); vm_compute; reflexivity).
  split; [exact Hout|].
  exact (calculateReward_unknown_arm_is_zero two_arms "C" accepted (Num 100) (Num 1) Hout).
Defined.

(** C8, as stated, fails: the value depends on the arm configuration of
    the instance.  With the same four arguments, an instance that has arm
    A answers -0.1 and an instance without it answers 0; and two instances
    that both have arm A, at costs 0.1 and 0.5, answer 0.9 and 0.5. *)
Lemma calculateReward_depends_on_configuration :
  result (calculateReward "A" declined (Num 0) (Num 0) two_arms)
  <> result (calculateReward "A" declined (Num 0) (Num 0) no_arms)
  /\ result (calculateReward "A" accepted (Num 1) (Num 0) two_arms)
     <> result (calculateReward "A" accepted (Num 1) (Num 0) costly_A).
Proof. split; vm_compute; discriminate. Qed.

(** C8, amended. [calculateReward] changes nothing and writes nothing, and
    its value is a function of its four arguments and of the arm list of
    the instance: two instances with the same arm list, in whatever
    states, give the same value for the same arguments. *)
Theorem calculateReward_function_of_arguments_and_arms
    b1 b2 armId response mrrValue armCostFraction :
  arms b1 = arms b2 ->
  result (calculateReward armId response mrrValue armCostFraction b1)
  = result (calculateReward armId response mrrValue armCostFraction b2)
  /\ this_after (calculateReward armId response mrrValue armCostFraction b1) = b1
  /\ warned (calculateReward armId response mrrValue armCostFraction b1) = [].
Proof.
  intros Harms. split; [|apply calculateReward_reads_only].
  unfold calculateReward. run_method. rewrite Harms.
  destruct (List.find _ (arms b2)); reflexivity.
Qed.

Lemma calculateReward_function_of_arguments_and_arms_witness :
  let b2 := this_after (update "A" (Num 1) 7%Z two_arms) in
  arms two_arms = arms b2
  /\ b2 <> two_arms
  /\ result (calculateReward "A" accepted (Num 100) (Num 0.1) two_arms)
     = result (calculateReward "A" accepted (Num 100) (Num 0.1) b2).
Proof.
  cbn zeta. split; [reflexivity|]. split; [intros [=]|].
  exact (proj1 (calculateReward_function_of_arguments_and_arms
                  two_arms (this_after (update "A" (Num 1) 7%Z two_arms))
                  "A" accepted (Num 100) (Num 0.1) eq_refl)).
Defined.

(** ** The exploration rate *)

Lemma decayEpsilon_run decayRate b :
  decayEpsilon decayRate b
  = Run (Normal tt)
      (set_epsilon
         (Math_max (Num 0.01) (epsilon b * default (Num 0.99) decayRate)%num) b) [].
Proof. reflexivity. Qed.

Lemma loadState_run state b :
  loadState state b
  = Run (Normal tt)
      {| arms := arms b;
         qValues := BanditState.qValues state;
         actionCounts := BanditState.actionCounts state;
         alpha := alpha b; gamma := gamma b; epsilon := epsilon b;
         totalReward := BanditState.totalReward state;
         lastUpdated := BanditState.lastUpdated state |} [].
Proof. reflexivity. Qed.

Lemma getState_run b :
  getState b
  = Run (Normal (BanditState.make (qValues b) (actionCounts b)
                   (totalReward b) (lastUpdated b))) b [].
Proof. reflexivity. Qed.

Lemma decay_completes decayRate b :
  result (perform (DecayEpsilon decayRate) b) = Normal tt.
Proof. reflexivity. Qed.

Lemma decay_floor (e rate : Q) :
  exists e', Math_max (Num 0.01) (Num e * Num rate)%num = Num e' /\ 0.01 <= e'.
Proof.
  simpl. destruct (Qle_bool 0.01 (e * rate)) eqn:Hle.
  - eexists. split; [reflexivity|]. apply Qle_bool_iff, Hle.
  - eexists. split; [reflexivity|]. lra.
Qed.

Lemma decay_within (e rate : Q) :
  0 <= e <= 1 -> rate <= 1 ->
  within 0 1 (Math_max (Num 0.01) (Num e * Num rate)%num).
Proof.
  intros He Hrate. simpl. destruct (Qle_bool 0.01 (e * rate)) eqn:Hle; simpl.
  - apply Qle_bool_iff in Hle. split; [lra|].
    assert (H : 0 <= e * (1 - rate)) by (apply Qmult_le_0_compat; lra). lra.
  - lra.
Qed.

Lemma perform_keeps_rate_within m b :
  decays_at_most_one m -> within 0 1 (epsilon b) ->
  within 0 1 (epsilon (this_after (perform m b))).
Proof.
  intros Hm Hb. destruct m as [actionId reward now|state|decayRate]; simpl in Hm.
  - cbn [perform].
    destruct (update_keeps_configuration b actionId reward now) as (_ & _ & _ & ->).
    exact Hb.
  - exact Hb.
  - cbn [perform]. rewrite decayEpsilon_run. cbn [this_after set_epsilon epsilon].
    destruct (default (Num 0.99) decayRate) as [rate|]; [|destruct Hm].
    destruct (epsilon b) as [e|]; [|destruct Hb].
    apply decay_within; assumption.
Qed.

Lemma forEach_cons {A} (f : A -> method unit) x l b :
  result (f x b) = Normal tt ->
  this_after (forEach f (x :: l) b) = this_after (forEach f l (this_after (f x b)))
  /\ result (forEach f (x :: l) b) = result (forEach f l (this_after (f x b))).
Proof.
  intros Hx. cbn [forEach]. unfold mbind, method_bind, bind.
  rewrite Hx. auto.
Qed.

(** A sequence of calls stops at the first call that throws. *)
Lemma forEach_cons_cases {A} (f : A -> method unit) x l b :
  this_after (forEach f (x :: l) b)
  = match result (f x b) with
    | Normal _ => this_after (forEach f l (this_after (f x b)))
    | Throw _ => this_after (f x b)
    end.
Proof.
  cbn [forEach]. unfold mbind, method_bind, bind.
  destruct (result (f x b)); reflexivity.
Qed.

Lemma mutations_keep_rate_within (calls : list mutation) b :
  Forall decays_at_most_one calls -> within 0 1 (epsilon b) ->
  within 0 1 (epsilon (this_after (forEach perform calls b))).
Proof.
  intros Hcalls. revert b.
  induction Hcalls as [|m calls Hm _ IH]; intros b Hb.
  - exact Hb.
  - rewrite forEach_cons_cases.
    pose proof (perform_keeps_rate_within m b Hm Hb) as Hstep.
    destruct (result (perform m b)); [apply IH, Hstep | exact Hstep].
Qed.

(** C9, as stated, fails: one decay by the factor 20 takes the default
    exploration rate 0.1 out of the unit interval, and the constructor
    keeps an exploration rate of 5 that it is given. *)
Lemma exploration_rate_leaves_unit_interval :
  ~ within 0 1 (epsilon (this_after (decayEpsilon (Some (Num 20)) two_arms)))
  /\ exists b, new_QLearningBandit [arm_A; arm_B] None None (Some (Num 5)) 0%Z = Normal b
              /\ ~ within 0 1 (epsilon b).
Proof.
  split.
  - vm_compute. intros [_ H]. apply H. reflexivity.
  - eexists. split; [reflexivity|]. vm_compute. intros [_ H]. apply H. reflexivity.
Qed.

(** C9, amended. When the constructor is given no exploration rate, or one
    between 0 and 1, the exploration rate is between 0 and 1 after
    construction and after any sequence of [update], [loadState] and
    [decayEpsilon] calls in which every decay rate is a number at most 1
    (the default 0.99 is), also when the sequence ends early because a
    call throws; and whenever [decayEpsilon] is called with a
    numeric decay rate on a numeric exploration rate, the exploration rate
    is at least 0.01 afterwards. *)
Theorem exploration_rate_within_unit_interval :
  (forall arms0 alpha0 gamma0 epsilon0 t0 (calls : list mutation),
     within 0 1 (default (Num 0.1) epsilon0) ->
     Forall decays_at_most_one calls ->
     exists b0,
       new_QLearningBandit arms0 alpha0 gamma0 epsilon0 t0 = Normal b0
       /\ within 0 1 (epsilon b0)
       /\ within 0 1 (epsilon (this_after (forEach perform calls b0))))
  /\ (forall b decayRate,
       is_number (epsilon b) -> is_number (default (Num 0.99) decayRate) ->
       exists e, epsilon (this_after (decayEpsilon decayRate b)) = Num e
                 /\ 0.01 <= e).
Proof.
  split.
  - intros arms0 alpha0 gamma0 epsilon0 t0 calls Heps Hcalls.
    eexists. split; [apply new_QLearningBandit_normal|].
    split; [exact Heps|].
    apply mutations_keep_rate_within; assumption.
  - intros b decayRate Hb Hrate. rewrite decayEpsilon_run.
    cbn [this_after set_epsilon epsilon].
    destruct (epsilon b) as [e|]; [|destruct Hb].
    destruct (default (Num 0.99) decayRate) as [rate|]; [|destruct Hrate].
    apply decay_floor.
Qed.

Lemma exploration_rate_within_unit_interval_witness :
  within 0 1 (default (Num 0.1) (Some (Num 0.5)))
  /\ Forall decays_at_most_one
       [DecayEpsilon None; Update "A" (Num 1) 7%Z; DecayEpsilon (Some (Num 0.5))]
  /\ is_number (epsilon two_arms)
  /\ is_number (default (Num 0.99) (Some (Num 20)))
  /\ (exists b0,
        new_QLearningBandit [arm_A; arm_B] None None (Some (Num 0.5)) 0%Z = Normal b0
        /\ within 0 1 (epsilon b0)
        /\ within 0 1
             (epsilon (this_after
                (forEach perform
                   [DecayEpsilon None; Update "A" (Num 1) 7%Z;
                    DecayEpsilon (Some (Num 0.5))] b0))))
  /\ (exists e, epsilon (this_after (decayEpsilon (Some (Num 20)) two_arms)) = Num e
                /\ 0.01 <= e).
Proof.
  assert (Heps : within 0 1 (default (Num 0.1) (Some (Num 0.5))))
    by (simpl; lra).
  assert (Hcalls : Forall decays_at_most_one
            [DecayEpsilon None; Update "A" (Num 1) 7%Z; DecayEpsilon (Some (Num 0.5))])
    by (repeat constructor; simpl; lra).
  split; [exact Heps|]. split; [exact Hcalls|].
  split; [exact I|]. split; [exact I|]. split.
  - exact (proj1 exploration_rate_within_unit_interval
             [arm_A; arm_B] None None (Some (Num 0.5)) 0%Z _ Heps Hcalls).
  - exact (proj2 exploration_rate_within_unit_interval two_arms (Some (Num 20)) I I).
Defined.

(** ** Snapshots *)

Lemma snapshot_roundtrip b :
  (state ← getState; loadState state) b = Run (Normal tt) b [].
Proof. destruct b. reflexivity. Qed.

(** C5, as stated, fails: the snapshot has no exploration rate.  The
    instance [half_decayed], at exploration rate 0.05, and the instance
    [two_arms], at 0.1, have the same snapshot, and loading that snapshot
    into [two_arms] leaves its exploration rate at 0.1. *)
Lemma snapshot_lacks_exploration_rate :
  epsilon half_decayed = Num (0.1 * 0.5)
  /\ result (getState half_decayed) = Normal fresh_snapshot
  /\ result (getState two_arms) = Normal fresh_snapshot
  /\ epsilon (this_after (loadState fresh_snapshot two_arms)) = Num 0.1
  /\ epsilon (this_after (loadState fresh_snapshot two_arms)) <> epsilon half_decayed.
Proof.
  split; [reflexivity|]. split; [reflexivity|]. split; [reflexivity|].
  split; [reflexivity|]. vm_compute. discriminate.
Qed.

(** C5, amended. The snapshot returned by [getState] holds the
    value-estimate mapping, the selection-count mapping, the cumulative
    reward and the last-updated timestamp of the instance, and nothing
    else: it is the same whatever the exploration rate is.  [getState]
    leaves the instance as it is.  [loadState] replaces these four fields
    by those of the snapshot and leaves the exploration rate, the arm
    list and the learning parameters as they were. *)
Theorem snapshot_holds_four_fields b :
  getState b
  = Run (Normal (BanditState.make (qValues b) (actionCounts b)
                   (totalReward b) (lastUpdated b))) b []
  /\ (forall rate, result (getState (set_epsilon rate b)) = result (getState b))
  /\ forall state,
       let b' := this_after (loadState state b) in
       result (loadState state b) = Normal tt
       /\ qValues b' = BanditState.qValues state
       /\ actionCounts b' = BanditState.actionCounts state
       /\ totalReward b' = BanditState.totalReward state
       /\ lastUpdated b' = BanditState.lastUpdated state
       /\ epsilon b' = epsilon b
       /\ arms b' = arms b /\ alpha b' = alpha b /\ gamma b' = gamma b.
Proof.
  split; [apply getState_run|]. split.
  - intros rate. rewrite !getState_run. reflexivity.
  - intros state. rewrite loadState_run. cbn. repeat split.
Qed.

(** C6. For every instance, [getState] followed by [loadState] of the
    snapshot it returned completes normally, and [getMetrics] then returns
    the very metrics it returned before: total selections, overall
    average reward, exploration rate, the per-arm value estimates, counts
    and averages, and the timestamp. *)
Theorem getMetrics_after_snapshot_roundtrip
    (Object_keys : gmap string number -> list string) b :
  let r := (state ← getState; loadState state) b in
  result r = Normal tt
  /\ (exists metrics, result (getMetrics Object_keys b) = Normal metrics)
  /\ result (getMetrics Object_keys (this_after r))
     = result (getMetrics Object_keys b).
Proof.
  cbn zeta. rewrite snapshot_roundtrip. cbn [result this_after].
  split; [reflexivity|]. split; [|reflexivity].
  eexists. unfold getMetrics. run_method. reflexivity.
Qed.

(** [getMetrics] after some learning, and again after the round trip. *)
Example getMetrics_roundtrip_sample :
  let b := this_after (update "A" (Num 1) 7%Z two_arms) in
  exists metrics,
    result (getMetrics keys_of_dom b) = Normal metrics
    /\ Metrics.totalActions metrics = Num (0 + 1 + 0)
    /\ ArmPerformance.qValue <$> Metrics.armPerformance metrics
       = [Number (Num (0 + 0.1 * (1 - 0))); Number (Num 0)]
    /\ result (getMetrics keys_of_dom
                 (this_after ((state ← getState; loadState state) b)))
       = Normal metrics.
Proof. cbn zeta. eexists. split; [vm_compute; reflexivity|]. vm_compute. auto. Qed.

(** ** Construction with no arms *)

Lemma array_get_nil {A} (i : number) : array_get (@nil A) i = None.
Proof.
  destruct i as [q|]; [|reflexivity]. unfold array_get.
  destruct (_ && _); reflexivity.
Qed.

Lemma Object_keys_empty (Object_keys : gmap string number -> list string) :
  enumerates_own_properties Object_keys -> Object_keys ∅ = [].
Proof.
  intros Hown. specialize (Hown ∅).
  rewrite dom_empty_L, elements_empty in Hown.
  apply Permutation_nil_r in Hown. exact Hown.
Qed.

(** C1, as stated, fails: the constructor accepts the empty arm list. *)
Lemma empty_arm_list_is_accepted :
  new_QLearningBandit [] None None None 0%Z = Normal no_arms
  /\ forall e, new_QLearningBandit [] None None None 0%Z <> Throw e.
Proof. split; [reflexivity | intros e; discriminate]. Qed.

(** C1, amended. The constructor never rejects: given the empty arm list
    it completes normally with an instance that has no arms and two empty
    mappings.  [selectAction] on that instance does run on the empty arm
    set: when it explores it returns [undefined], when it exploits the
    [reduce] over no keys throws a [TypeError]; the instance is unchanged
    either way. *)
Theorem empty_arm_list_constructs
    (Object_keys : gmap string number -> list string)
    alpha0 gamma0 epsilon0 t0 random1 random2 :
  enumerates_own_properties Object_keys ->
  exists b0,
    new_QLearningBandit [] alpha0 gamma0 epsilon0 t0 = Normal b0
    /\ arms b0 = [] /\ qValues b0 = ∅ /\ actionCounts b0 = ∅
    /\ let r := selectAction Object_keys random1 random2 b0 in
       this_after r = b0
       /\ result r
          = if num_lt random1 (epsilon b0)
            then Normal None
            else Throw (TypeError "Reduce of empty array with no initial value").
Proof.
  intros Hown. eexists. split; [apply new_QLearningBandit_normal|].
  repeat (split; [reflexivity|]). cbn zeta.
  unfold selectAction. run_method.
  destruct (num_lt random1 (default (Num 0.1) epsilon0)); simpl.
  - rewrite array_get_nil. auto.
  - unfold zeroed; simpl. rewrite (Object_keys_empty _ Hown). simpl. auto.
Qed.

Lemma empty_arm_list_constructs_witness :
  enumerates_own_properties keys_of_dom
  /\ exists b0,
       new_QLearningBandit [] None None None 0%Z = Normal b0
       /\ arms b0 = [] /\ qValues b0 = ∅ /\ actionCounts b0 = ∅
       /\ let r := selectAction keys_of_dom (Num 0.5) (Num 0.25) b0 in
          this_after r = b0
          /\ result r
             = if num_lt (Num 0.5) (epsilon b0)
               then Normal None
               else Throw (TypeError "Reduce of empty array with no initial value").
Proof.
  assert (Hown : enumerates_own_properties keys_of_dom) by (intros o; reflexivity).
  split; [exact Hown|].
  exact (empty_arm_list_constructs keys_of_dom None None None 0%Z
           (Num 0.5) (Num 0.25) Hown).
Defined.

(** What [getMetrics] reads for an arm named [__proto__], which has no
    key: the prototype as estimate and as count, and an average of 0. *)
Example getMetrics_of_proto_arm :
  exists metrics,
    result (getMetrics keys_of_dom proto_only) = Normal metrics
    /\ Metrics.armPerformance metrics
       = [ ArmPerformance.make "__proto__" discount (Inherited "__proto__")
             (Inherited "__proto__") (Num 0) ].
Proof. eexists. split; vm_compute; reflexivity. Qed.

(** With arms, the same calls select: exploring with the draw 0.75 takes
    the second of two arms, exploiting after arm B was rewarded takes B. *)
Example selectAction_sample :
  result (selectAction keys_of_dom (Num 0.05) (Num 0.75) two_arms) = Normal (Some arm_B)
  /\ result (selectAction keys_of_dom (Num 0.5) (Num 0.75)
               (this_after (update "B" (Num 1) 7%Z two_arms))) = Normal (Some arm_B)
  /\ result (selectAction keys_of_dom (Num 0.5) (Num 0.75) no_arms)
     = Throw (TypeError "Reduce of empty array with no initial value")
  /\ result (selectAction keys_of_dom (Num 0.05) (Num 0.75) no_arms) = Normal None.
Proof. vm_compute. auto. Qed.

(** * Further properties of the class and of its caller *)

(** ** Sequences of update calls *)

Lemma Qplus_inject_Z_eq (x y : Z) :
  Qplus (inject_Z x) (inject_Z y) = inject_Z (x + y).
Proof. unfold Qplus, inject_Z. simpl. f_equal. lia. Qed.

Lemma update_other_arm b actionId reward now other :
  other <> actionId ->
  qValues (this_after (update actionId reward now b)) !! other = qValues b !! other
  /\ actionCounts (this_after (update actionId reward now b)) !! other
     = actionCounts b !! other.
Proof.
  intros Hne.
  destruct (update_cases b actionId reward now) as [[Hplain _]|[_ ->]]; [|auto].
  destruct (qValues b !! actionId) as [q|] eqn:Hq.
  - rewrite update_known by (try exact Hplain; rewrite Hq; eauto). simpl.
    rewrite lookup_insert_ne by congruence.
    rewrite property_set_other by exact Hne. auto.
  - rewrite update_unknown by assumption. auto.
Qed.

Lemma updates_counts (calls : list update_call) b armId (n : Z) :
  keys_invariant b -> hasOwnProperty_inherited b -> armId ∈ arm_ids b ->
  actionCounts b !! armId = Some (Num (inject_Z n)) ->
  actionCounts (this_after (updates calls b)) !! armId
  = Some (Num (inject_Z (n + Z.of_nat (calls_naming armId calls)))).
Proof.
  revert b n. induction calls as [|c calls IH]; intros b n Hinv Hplain Hin Hn.
  - cbn. rewrite Z.add_0_r. exact Hn.
  - rewrite updates_cons by exact Hplain. cbn zeta. cbn [this_after].
    assert (Hinv' := update_keeps_keys b c.1.1 c.1.2 c.2 Hinv).
    assert (Hplain' := update_keeps_hasOwnProperty_inherited b c.1.1 c.1.2 c.2 Hplain).
    assert (Hin' : armId ∈ arm_ids (this_after (update c.1.1 c.1.2 c.2 b))).
    { unfold arm_ids in *.
      destruct (update_keeps_configuration b c.1.1 c.1.2 c.2) as (-> & _). exact Hin. }
    unfold calls_naming. rewrite filter_cons.
    destruct (decide (c.1.1 = armId)) as [Heq|Hne].
    + rewrite (IH _ (n + 1)%Z Hinv' Hplain' Hin').
      * unfold calls_naming. cbn [length].
        assert (E : forall k : nat, (n + 1 + Z.of_nat k = n + Z.of_nat (S k))%Z)
          by (intros k; lia).
        rewrite E. reflexivity.
      * destruct (elem_of_arm_ids_lookup b armId Hinv Hin) as [Hq _].
        rewrite Heq. rewrite update_known by assumption.
        cbn [this_after actionCounts].
        rewrite property_set_own by (rewrite Hn; eauto).
        rewrite lookup_insert_eq, Hn.
        cbn [ToNumber]. unfold num_add, lift2.
        exact (f_equal (fun q => Some (Num q)) (Qplus_inject_Z_eq n 1)).
    + rewrite (IH _ n Hinv' Hplain' Hin'); [reflexivity|].
      rewrite (proj2 (update_other_arm b c.1.1 c.1.2 c.2 armId ltac:(congruence))).
      exact Hn.
Qed.

Lemma lookup_zeroed l (o : gmap string number) key :
  key <> "__proto__" ->
  zeroed l o !! key = if decide (key ∈ Offer.id <$> l) then Some (Num 0) else o !! key.
Proof.
  intros Hkey. revert o. induction l as [|arm l IH]; intros o.
  - cbn. destruct (decide (key ∈ [])) as [Hin|_]; [inversion Hin | reflexivity].
  - unfold zeroed in *. cbn [foldl]. rewrite IH. rewrite fmap_cons.
    destruct (decide (key ∈ Offer.id <$> l)) as [Hl|Hl].
    + destruct (decide (key ∈ Offer.id arm :: (Offer.id <$> l))); [reflexivity|set_solver].
    + destruct (decide (key = Offer.id arm)) as [->|Hne].
      * rewrite property_set_ordinary by exact Hkey. rewrite lookup_insert_eq.
        destruct (decide (Offer.id arm ∈ Offer.id arm :: (Offer.id <$> l)));
          [reflexivity|set_solver].
      * rewrite property_set_other by exact Hne.
        destruct (decide (key ∈ Offer.id arm :: (Offer.id <$> l))); [set_solver|reflexivity].
Qed.

Lemma lookup_zeroed_elem l (o : gmap string number) key :
  key <> "__proto__" -> key ∈ Offer.id <$> l -> zeroed l o !! key = Some (Num 0).
Proof.
  intros Hkey Hin. rewrite lookup_zeroed by exact Hkey.
  destruct (decide (key ∈ Offer.id <$> l)); [reflexivity|contradiction].
Qed.

Lemma ordinary_ids_elem arms0 key :
  ordinary_ids arms0 -> key ∈ Offer.id <$> arms0 ->
  key <> "__proto__" /\ key <> "hasOwnProperty".
Proof. intros [Hp Hh] Hin. split; intros ->; contradiction. Qed.

(** X1. When no arm is named [__proto__] or [hasOwnProperty]: after
    construction and any sequence of [update] calls, the selection count
    of a configured arm is the number of calls that named that arm. *)
Theorem count_is_number_of_updates arms0 alpha0 gamma0 epsilon0 t0
    (calls : list update_call) armId :
  ordinary_ids arms0 ->
  armId ∈ Offer.id <$> arms0 ->
  exists b0,
    new_QLearningBandit arms0 alpha0 gamma0 epsilon0 t0 = Normal b0
    /\ actionCounts (this_after (updates calls b0)) !! armId
       = Some (Num (inject_Z (Z.of_nat (calls_naming armId calls)))).
Proof.
  intros Hids Hin. eexists. split; [apply new_QLearningBandit_normal|].
  match goal with |- context [updates calls ?b] => set (b0 := b) end.
  destruct (new_QLearningBandit_keys arms0 alpha0 gamma0 epsilon0 t0 b0 Hids
              (new_QLearningBandit_normal _ _ _ _ _)) as (_ & Hinv & Hplain).
  rewrite (updates_counts calls b0 armId 0%Z Hinv Hplain).
  - reflexivity.
  - unfold arm_ids. rewrite elem_of_list_to_set. exact Hin.
  - subst b0. cbn [actionCounts]. apply lookup_zeroed_elem; [|exact Hin].
    apply (ordinary_ids_elem arms0 armId Hids Hin).
Qed.

Lemma updates_total_reward (calls : list update_call) b arms0 :
  keys_invariant b -> hasOwnProperty_inherited b -> arms b = arms0 ->
  totalReward (this_after (updates calls b))
  = fold_left num_add (rewards_learned arms0 calls) (totalReward b).
Proof.
  revert b. induction calls as [|c calls IH]; intros b Hinv Hplain Harms.
  - reflexivity.
  - rewrite updates_cons by exact Hplain. cbn zeta. cbn [this_after].
    rewrite IH.
    2: { apply update_keeps_keys, Hinv. }
    2: { apply update_keeps_hasOwnProperty_inherited, Hplain. }
    2: { destruct (update_keeps_configuration b c.1.1 c.1.2 c.2) as (-> & _). exact Harms. }
    unfold rewards_learned. rewrite filter_cons.
    assert (Hdom : dom (qValues b) = list_to_set (Offer.id <$> arms0)).
    { destruct Hinv as [Hq _]. unfold arm_ids in Hq. rewrite Harms in Hq. exact Hq. }
    destruct (decide (c.1.1 ∈ (list_to_set (Offer.id <$> arms0) : gset string)))
      as [Hin|Hout].
    + rewrite <- Hdom in Hin. apply elem_of_dom in Hin.
      rewrite update_known by assumption. reflexivity.
    + rewrite <- Hdom in Hout. apply not_elem_of_dom in Hout.
      rewrite update_unknown by assumption. reflexivity.
Qed.

(** X2. When no arm is named [__proto__] or [hasOwnProperty]: after
    construction and any sequence of [update] calls, the cumulative reward is the sum, taken in call order from 0, of the
    rewards of the calls that named a configured arm; the reward of a call
    with an unknown arm id is not added. *)
Theorem total_reward_sums_learned_rewards arms0 alpha0 gamma0 epsilon0 t0
    (calls : list update_call) :
  ordinary_ids arms0 ->
  exists b0,
    new_QLearningBandit arms0 alpha0 gamma0 epsilon0 t0 = Normal b0
    /\ totalReward (this_after (updates calls b0))
       = fold_left num_add (rewards_learned arms0 calls) (Num 0).
Proof.
  intros Hids. eexists. split; [apply new_QLearningBandit_normal|].
  match goal with |- context [updates calls ?b] => set (b0 := b) end.
  destruct (new_QLearningBandit_keys arms0 alpha0 gamma0 epsilon0 t0 b0 Hids
              (new_QLearningBandit_normal _ _ _ _ _)) as (Harms & Hinv & Hplain).
  rewrite (updates_total_reward calls b0 arms0 Hinv Hplain Harms). reflexivity.
Qed.

(** ** The size of the estimates *)

Lemma blend_within (lo hi a q r : Q) :
  0 <= a <= 1 -> lo <= q <= hi -> lo <= r <= hi ->
  lo <= q + a * (r - q) <= hi.
Proof.
  intros Ha Hq Hr.
  assert (H1 : 0 <= (1 - a) * (q - lo)) by (apply Qmult_le_0_compat; lra).
  assert (H2 : 0 <= a * (r - lo)) by (apply Qmult_le_0_compat; lra).
  assert (H3 : 0 <= (1 - a) * (hi - q)) by (apply Qmult_le_0_compat; lra).
  assert (H4 : 0 <= a * (hi - r)) by (apply Qmult_le_0_compat; lra).
  split; lra.
Qed.

Lemma update_keeps_estimates_within lo hi (a : Q) b actionId reward now :
  alpha b = Num a -> 0 <= a <= 1 -> within lo hi reward ->
  estimates_within lo hi b ->
  estimates_within lo hi (this_after (update actionId reward now b)).
Proof.
  intros Halpha Ha Hr Hb key v.
  destruct (update_cases b actionId reward now) as [[Hplain _]|[_ ->]]; [|apply Hb].
  destruct (qValues b !! actionId) as [q|] eqn:Hq.
  - rewrite update_known by (try exact Hplain; rewrite Hq; eauto).
    cbn [this_after qValues].
    rewrite Hq, Halpha. cbn [ToNumber].
    destruct (decide (key = actionId)) as [->|Hne].
    + rewrite lookup_insert_eq. intros [= <-].
      specialize (Hb _ _ Hq). destruct q as [q|]; [|destruct Hb].
      destruct reward as [r|]; [|destruct Hr].
      simpl in *. apply blend_within; assumption.
    + rewrite lookup_insert_ne by congruence. apply Hb.
  - rewrite update_unknown by assumption. apply Hb.
Qed.

Lemma updates_keep_estimates_within lo hi (a : Q) (calls : list update_call) b :
  alpha b = Num a -> 0 <= a <= 1 ->
  Forall (fun c => within lo hi c.1.2) calls ->
  estimates_within lo hi b ->
  estimates_within lo hi (this_after (updates calls b)).
Proof.
  intros Halpha Ha Hcalls. revert b Halpha.
  induction Hcalls as [|c calls Hc _ IH]; intros b Halpha Hb.
  - exact Hb.
  - unfold updates. rewrite forEach_cons_cases.
    pose proof (update_keeps_estimates_within lo hi a b c.1.1 c.1.2 c.2
                  Halpha Ha Hc Hb) as Hstep.
    destruct (result (update c.1.1 c.1.2 c.2 b)); [|exact Hstep].
    apply IH; [|exact Hstep].
    destruct (update_keeps_configuration b c.1.1 c.1.2 c.2) as (_ & -> & _).
    exact Halpha.
Qed.

Lemma zeroed_values l key v : zeroed l ∅ !! key = Some v -> v = Num 0.
Proof.
  intros Hv. assert (Hin : key ∈ dom (zeroed l ∅)) by (apply elem_of_dom; eauto).
  rewrite dom_zeroed, dom_empty_L, union_empty_l_L in Hin.
  apply elem_of_difference in Hin. destruct Hin as [Hin Hproto].
  rewrite elem_of_list_to_set in Hin. rewrite not_elem_of_singleton in Hproto.
  rewrite (lookup_zeroed_elem l ∅ key Hproto Hin) in Hv. congruence.
Qed.

(** X3. In exact rational arithmetic (rounding aside): when the learning
    rate is between 0 and 1 (the default 0.1 is) and every reward passed
    to [update] lies in an interval that contains 0, every value estimate
    lies in that interval after construction and any sequence of [update]
    calls: with rewards from [calculateReward] the estimates stay between
    -1 and 1. *)
Theorem estimates_stay_within_rewards (lo hi a : Q) arms0 alpha0 gamma0 epsilon0 t0
    (calls : list update_call) :
  default (Num 0.1) alpha0 = Num a -> 0 <= a <= 1 ->
  lo <= 0 <= hi ->
  Forall (fun c => within lo hi c.1.2) calls ->
  exists b0,
    new_QLearningBandit arms0 alpha0 gamma0 epsilon0 t0 = Normal b0
    /\ forall armId estimate,
         qValues (this_after (updates calls b0)) !! armId = Some estimate ->
         within lo hi estimate.
Proof.
  intros Halpha Ha Hzero Hcalls.
  eexists. split; [apply new_QLearningBandit_normal|].
  apply (updates_keep_estimates_within lo hi a); try assumption.
  intros key v Hv. cbn [qValues] in Hv.
  apply zeroed_values in Hv. subst v. exact Hzero.
Qed.

(** ** Repeating one reward *)

Lemma updates_replicate_other n b armId reward now other :
  other <> armId ->
  qValues (this_after (updates (replicate n (armId, reward, now)) b)) !! other
  = qValues b !! other.
Proof.
  intros Hne. revert b. induction n as [|n IH]; intros b.
  - reflexivity.
  - cbn [replicate]. unfold updates. rewrite forEach_cons_cases.
    destruct (result (update (armId, reward, now).1.1 (armId, reward, now).1.2
                        (armId, reward, now).2 b)).
    + fold (updates (replicate n (armId, reward, now))). rewrite IH.
      apply update_other_arm, Hne.
    + apply update_other_arm, Hne.
Qed.

(** X4. On an instance whose estimate mapping has no key named
    hasOwnProperty, calling [update] [n] times for one arm with the same
    reward [r] moves that arm's estimate from [q0] to
    [r + (q0 - r) * (1 - alpha)^n] (as rationals), so the distance to [r]
    shrinks by the factor [1 - alpha] at each call; the estimates of the
    other arms are untouched. *)
Theorem repeated_reward_closed_form (n : nat) b armId (a r q0 : Q) now :
  hasOwnProperty_inherited b ->
  alpha b = Num a ->
  qValues b !! armId = Some (Num q0) ->
  let b' := this_after (updates (replicate n (armId, Num r, now)) b) in
  (exists qn, qValues b' !! armId = Some (Num qn)
              /\ qn == r + (q0 - r) * power (1 - a) n)
  /\ forall other, other <> armId -> qValues b' !! other = qValues b !! other.
Proof.
  intros Hplain Halpha Hq0. cbn zeta. split.
  2: { intros other Hne. apply updates_replicate_other, Hne. }
  revert b q0 Hplain Halpha Hq0. induction n as [|n IH]; intros b q0 Hplain Halpha Hq0.
  - exists q0. split; [exact Hq0|]. cbn [power]. ring.
  - cbn [replicate]. rewrite updates_cons by exact Hplain. cbn zeta. cbn [this_after].
    destruct (IH (this_after (update armId (Num r) now b)) (q0 + a * (r - q0)))
      as (qn & Hqn & Heq).
    + apply update_keeps_hasOwnProperty_inherited, Hplain.
    + destruct (update_keeps_configuration b armId (Num r) now) as (_ & -> & _).
      exact Halpha.
    + rewrite update_known by (try exact Hplain; rewrite Hq0; eauto).
      cbn [this_after qValues].
      rewrite lookup_insert_eq, Hq0, Halpha. reflexivity.
    + exists qn. split; [exact Hqn|]. rewrite Heq. cbn [power]. ring.
Qed.

(** ** selectAction *)

Lemma find_arm_configured (l : list Offer.t) armId :
  armId ∈ Offer.id <$> l ->
  exists arm, List.find (fun arm => String.eqb (Offer.id arm) armId) l = Some arm
              /\ arm ∈ l /\ Offer.id arm = armId.
Proof.
  intros Hin.
  destruct (List.find (fun arm => String.eqb (Offer.id arm) armId) l) as [arm|] eqn:Hfind.
  - exists arm. split; [reflexivity|]. apply find_arm_known, Hfind.
  - exfalso. apply list_elem_of_fmap in Hin. destruct Hin as (arm & -> & Harm).
    apply list_elem_of_In in Harm.
    pose proof (find_none _ _ Hfind arm Harm) as Hno. cbv beta in Hno.
    rewrite String.eqb_refl in Hno. discriminate.
Qed.

Lemma Object_keys_elem (Object_keys : gmap string number -> list string) o key :
  enumerates_own_properties Object_keys ->
  key ∈ Object_keys o <-> is_Some (o !! key).
Proof.
  intros Hown. rewrite (Hown o), elem_of_elements, elem_of_dom. reflexivity.
Qed.

Lemma random_index_in_range (r : Q) (n : nat) :
  0 <= r -> r < 1 -> (0 < n)%nat ->
  (0 <= Qfloor (r * inject_Z (Z.of_nat n)) < Z.of_nat n)%Z.
Proof.
  intros Hr0 Hr1 Hn.
  assert (Hpos : 0 < inject_Z (Z.of_nat n)).
  { change 0 with (inject_Z 0). rewrite <- Zlt_Qlt. lia. }
  split.
  - change 0%Z with (Qfloor (inject_Z 0)). apply Qfloor_resp_le.
    change (inject_Z 0) with 0. apply Qmult_le_0_compat; lra.
  - rewrite Zlt_Qlt. eapply Qle_lt_trans; [apply Qfloor_le|].
    assert (H : 0 < (1 - r) * inject_Z (Z.of_nat n))
      by (apply Qmult_lt_0_compat; lra).
    lra.
Qed.

Lemma array_get_index {A} (l : list A) (z : Z) :
  (0 <= z)%Z -> array_get l (Num (inject_Z z)) = l !! Z.to_nat z.
Proof.
  intros Hz. unfold array_get. rewrite Qfloor_Z.
  rewrite (proj2 (Qeq_bool_iff _ _) (Qeq_refl _)).
  rewrite (proj2 (Z.leb_le 0 z) Hz). reflexivity.
Qed.

(** X5. With at least one arm, both mappings keyed by the configured arm
    ids and a second random draw in [0, 1), [selectAction] always
    completes normally with one of the configured arms (never [undefined],
    never an exception), and it changes and logs nothing. *)
Theorem selectAction_returns_configured_arm
    (Object_keys : gmap string number -> list string) b random1 (random2 : Q) :
  enumerates_own_properties Object_keys ->
  keys_invariant b ->
  arms b <> [] ->
  0 <= random2 -> random2 < 1 ->
  exists arm,
    selectAction Object_keys random1 (Num random2) b = Run (Normal (Some arm)) b []
    /\ arm ∈ arms b.
Proof.
  intros Hown [Hq _] Harms Hr0 Hr1.
  unfold selectAction, mbind, mret, method_bind, method_ret, bind, ret, read.
  cbn [result this_after warned].
  destruct (num_lt random1 (epsilon b)); cbn [result this_after warned app].
  - unfold num_mul, lift2, Math_floor.
    assert (Hlen : (0 < length (arms b))%nat)
      by (destruct (arms b); [congruence | simpl; lia]).
    destruct (random_index_in_range random2 (length (arms b)) Hr0 Hr1 Hlen) as [Hlo Hhi].
    rewrite array_get_index by exact Hlo.
    destruct (lookup_lt_is_Some_2 (arms b)
                (Z.to_nat (Qfloor (random2 * inject_Z (Z.of_nat (length (arms b)))))))
      as [arm Harm]; [lia|].
    exists arm. rewrite Harm. split; [reflexivity|].
    apply list_elem_of_lookup. eauto.
  - destruct (Object_keys (qValues b)) as [|key keys] eqn:Hkeys.
    + exfalso. destruct (arms b) as [|arm rest] eqn:Ha; [congruence|].
      assert (Hin : Offer.id arm ∈ Object_keys (qValues b)).
      { apply Object_keys_elem; [exact Hown|]. apply elem_of_dom.
        rewrite Hq. unfold arm_ids. rewrite Ha. set_solver. }
      rewrite Hkeys in Hin. inversion Hin.
    + unfold reduce, mret, method_ret, ret. cbn [result this_after warned app].
      destruct (List.find _ (arms b)) as [arm|] eqn:Hfind.
      * exists arm. split; [reflexivity|]. apply find_arm_known in Hfind. tauto.
      * destruct (arms b) as [|arm rest] eqn:Ha; [congruence|].
        exists arm. split; [reflexivity|]. set_solver.
Qed.

Lemma pick_greater (o : gmap string number) a b (qa qb : Q) :
  o !! a = Some (Num qa) -> o !! b = Some (Num qb) ->
  let c := if num_gt (ToNumber (o !! a)) (ToNumber (o !! b)) then a else b in
  (c = a \/ c = b) /\ estimate_le o a c /\ estimate_le o b c.
Proof.
  intros Ha Hb. cbn zeta. rewrite Ha, Hb. cbn [ToNumber]. unfold num_gt, num_lt.
  destruct (Qle_bool qa qb) eqn:Hle; cbn [negb].
  - apply Qle_bool_iff in Hle. split; [auto|]. split.
    + exists qa, qb. auto.
    + exists qb, qb. split; [auto|]. split; [auto|]. lra.
  - assert (Hgt : ~ qa <= qb) by (rewrite <- Qle_bool_iff, Hle; discriminate).
    split; [auto|]. split.
    + exists qa, qa. split; [auto|]. split; [auto|]. lra.
    + exists qb, qa. split; [auto|]. split; [auto|]. lra.
Qed.

Lemma estimate_le_trans o a b c :
  estimate_le o a b -> estimate_le o b c -> estimate_le o a c.
Proof.
  intros (qa & qb & Ha & Hb & Hab) (qb' & qc & Hb' & Hc & Hbc).
  rewrite Hb in Hb'. injection Hb' as <-.
  exists qa, qc. split; [auto|]. split; [auto|]. lra.
Qed.

Lemma reduce_picks_greatest (o : gmap string number) keys first :
  (forall key, key ∈ first :: keys -> exists q, o !! key = Some (Num q)) ->
  let best :=
    fold_left (fun a b => if num_gt (ToNumber (o !! a)) (ToNumber (o !! b)) then a else b)
      keys first in
  best ∈ first :: keys /\ forall key, key ∈ first :: keys -> estimate_le o key best.
Proof.
  cbn zeta. revert first. induction keys as [|next keys IH]; intros first Hnum.
  - cbn [fold_left]. split; [set_solver|].
    intros key Hkey. apply list_elem_of_singleton in Hkey. subst key.
    destruct (Hnum first) as [q Hq]; [set_solver|].
    exists q, q. split; [auto|]. split; [auto|]. lra.
  - cbn [fold_left].
    destruct (Hnum first) as [qa Ha]; [set_solver|].
    destruct (Hnum next) as [qb Hb]; [set_solver|].
    destruct (pick_greater o first next qa qb Ha Hb) as (Hc & Hfirst & Hnext).
    cbn zeta in Hc, Hfirst, Hnext.
    set (c := if num_gt (ToNumber (o !! first)) (ToNumber (o !! next))
              then first else next) in *.
    destruct (IH c) as [Hbest Hmax].
    { intros key Hkey. apply Hnum.
      apply elem_of_cons in Hkey. destruct Hkey as [->|Hkey]; [|set_solver].
      destruct Hc as [-> | ->]; set_solver. }
    split.
    + apply elem_of_cons in Hbest. destruct Hbest as [->|Hbest]; [|set_solver].
      destruct Hc as [-> | ->]; set_solver.
    + intros key Hkey.
      apply elem_of_cons in Hkey. destruct Hkey as [->|Hkey].
      { eapply estimate_le_trans; [exact Hfirst|]. apply Hmax. set_solver. }
      apply elem_of_cons in Hkey. destruct Hkey as [->|Hkey].
      { eapply estimate_le_trans; [exact Hnext|]. apply Hmax. set_solver. }
      apply Hmax. set_solver.
Qed.

Lemma exploit_picks_greatest
    (Object_keys : gmap string number -> list string) b random1 random2 :
  enumerates_own_properties Object_keys ->
  keys_invariant b ->
  arms b <> [] ->
  (forall key v, qValues b !! key = Some v -> is_number v) ->
  num_lt random1 (epsilon b) = false ->
  exists arm,
    selectAction Object_keys random1 random2 b = Run (Normal (Some arm)) b []
    /\ arm ∈ arms b
    /\ forall other, other ∈ arms b ->
         estimate_le (qValues b) (Offer.id other) (Offer.id arm).
Proof.
  intros Hown [Hq _] Harms Hnum Hexploit.
  unfold selectAction, mbind, mret, method_bind, method_ret, bind, ret, read.
  cbn [result this_after warned]. rewrite Hexploit.
  cbn [result this_after warned app].
  destruct (Object_keys (qValues b)) as [|first keys] eqn:Hkeys.
  { exfalso. destruct (arms b) as [|arm rest] eqn:Ha; [congruence|].
    assert (Hin : Offer.id arm ∈ Object_keys (qValues b)).
    { apply Object_keys_elem; [exact Hown|]. apply elem_of_dom.
      rewrite Hq. unfold arm_ids. rewrite Ha. set_solver. }
    rewrite Hkeys in Hin. inversion Hin. }
  unfold reduce, mret, method_ret, ret. cbn [result this_after warned app].
  destruct (reduce_picks_greatest (qValues b) keys first) as [Hbest Hmax].
  { intros key Hkey. rewrite <- Hkeys in Hkey.
    apply (Object_keys_elem _ _ _ Hown) in Hkey. destruct Hkey as [v Hv].
    specialize (Hnum _ _ Hv). destruct v as [q|]; [eauto | destruct Hnum]. }
  cbn zeta in Hbest, Hmax.
  set (best := fold_left _ keys first) in *.
  assert (Hconf : best ∈ Offer.id <$> arms b).
  { rewrite <- Hkeys in Hbest. apply (Object_keys_elem _ _ _ Hown) in Hbest.
    apply elem_of_dom in Hbest. rewrite Hq in Hbest. unfold arm_ids in Hbest.
    rewrite elem_of_list_to_set in Hbest. exact Hbest. }
  destruct (find_arm_configured (arms b) best Hconf) as (arm & Hfind & Harm & Hid).
  rewrite Hfind. exists arm. split; [reflexivity|]. split; [exact Harm|].
  intros other Hother. rewrite Hid. apply Hmax. rewrite <- Hkeys.
  apply Object_keys_elem; [exact Hown|]. apply elem_of_dom. rewrite Hq.
  unfold arm_ids. rewrite elem_of_list_to_set. apply list_elem_of_fmap. eauto.
Qed.

(** X6. When [selectAction] exploits (the first draw is not below the
    exploration rate) on an instance with both mappings keyed by the
    configured arm ids and numeric estimates only, it returns a configured
    arm whose value estimate is greatest: no arm has a larger one. *)
Theorem selectAction_exploits_greatest_estimate
    (Object_keys : gmap string number -> list string) b random1 random2 :
  enumerates_own_properties Object_keys ->
  keys_invariant b ->
  arms b <> [] ->
  (forall key v, qValues b !! key = Some v -> is_number v) ->
  num_lt random1 (epsilon b) = false ->
  exists arm,
    result (selectAction Object_keys random1 random2 b) = Normal (Some arm)
    /\ arm ∈ arms b
    /\ forall other, other ∈ arms b ->
         estimate_le (qValues b) (Offer.id other) (Offer.id arm).
Proof.
  intros Hown Hinv Harms Hnum Hexploit.
  destruct (exploit_picks_greatest Object_keys b random1 random2
              Hown Hinv Harms Hnum Hexploit) as (arm & Hrun & Harm & Hmax).
  exists arm. rewrite Hrun. auto.
Qed.

(** ** Snapshots, once more *)

(** X7. [getState] right after [loadState(state)] returns [state] itself,
    whatever the instance held before; and a second [loadState] undoes
    the first one entirely. *)
Theorem loadState_then_getState state b :
  result (getState (this_after (loadState state b))) = Normal state
  /\ forall earlier,
       this_after (loadState state (this_after (loadState earlier b)))
       = this_after (loadState state b).
Proof.
  split.
  - rewrite loadState_run, getState_run. destruct state. reflexivity.
  - intros earlier. rewrite !loadState_run. reflexivity.
Qed.

Lemma sum_absorbs_NaN (l : list number) : fold_left num_add l NaN = NaN.
Proof. induction l as [|x l IH]; [reflexivity | exact IH]. Qed.

Lemma sum_with_NaN (l : list number) acc :
  NaN ∈ l -> fold_left num_add l acc = NaN.
Proof.
  revert acc. induction l as [|x l IH]; intros acc Hin.
  - inversion Hin.
  - apply elem_of_cons in Hin. destruct Hin as [<-|Hin].
    + cbn [fold_left]. destruct acc; apply sum_absorbs_NaN.
    + cbn [fold_left]. apply IH, Hin.
Qed.

Lemma elem_of_Object_values (Object_keys : gmap string number -> list string) o key v :
  enumerates_own_properties Object_keys ->
  o !! key = Some v -> v ∈ Object_values Object_keys o.
Proof.
  intros Hown Hv. unfold Object_values. apply list_elem_of_omap.
  exists key. split; [|exact Hv].
  apply Object_keys_elem; [exact Hown | eauto].
Qed.

(** X8. After a snapshot whose count mapping lacks an arm that its
    estimate mapping has (the arm not being named [__proto__], and the
    estimate mapping having no key named hasOwnProperty), [update] for
    that arm completes normally and stores [NaN] as the arm's count;
    [getMetrics] then reports [NaN] total selections and an overall
    average reward of 0. *)
Theorem update_without_count_stores_NaN
    (Object_keys : gmap string number -> list string) b armId estimate reward now :
  enumerates_own_properties Object_keys ->
  hasOwnProperty_inherited b ->
  armId <> "__proto__" ->
  qValues b !! armId = Some estimate ->
  actionCounts b !! armId = None ->
  let b' := this_after (update armId reward now b) in
  result (update armId reward now b) = Normal tt
  /\ actionCounts b' !! armId = Some NaN
  /\ exists metrics,
       result (getMetrics Object_keys b') = Normal metrics
       /\ Metrics.totalActions metrics = NaN
       /\ Metrics.avgReward metrics = Num 0.
Proof.
  intros Hown Hplain Hproto Hq Hn. cbn zeta.
  rewrite update_known by (try exact Hplain; rewrite Hq; eauto).
  cbn [result this_after actionCounts]. rewrite Hn.
  rewrite property_set_ordinary by exact Hproto.
  split; [reflexivity|]. split; [apply lookup_insert_eq|].
  unfold getMetrics, mbind, mret, method_bind, method_ret, bind, ret, read.
  cbn [result this_after warned actionCounts].
  eexists. split; [reflexivity|].
  cbn [Metrics.totalActions Metrics.avgReward].
  rewrite sum_with_NaN.
  - split; reflexivity.
  - apply (elem_of_Object_values _ _ armId); [exact Hown|]. apply lookup_insert_eq.
Qed.

(** ** Repeated decay *)

Lemma decay_step (e r : Q) :
  exists e', Math_max (Num 0.01) (Num e * Num r)%num = Num e'
    /\ ((0.01 <= e * r -> e' == e * r) /\ (e * r <= 0.01 -> e' == 0.01)).
Proof.
  cbn. destruct (Qle_bool 0.01 (e * r)) eqn:Hle.
  - apply Qle_bool_iff in Hle. eexists. split; [reflexivity|].
    split; intros; lra.
  - assert (Hnot : ~ 0.01 <= e * r) by (rewrite <- Qle_bool_iff, Hle; discriminate).
    eexists. split; [reflexivity|]. split; intros; lra.
Qed.

Lemma power_nonneg (r : Q) n : 0 <= r -> 0 <= power r n.
Proof.
  intros Hr. induction n as [|n IH]; cbn [power]; [lra|].
  apply Qmult_le_0_compat; assumption.
Qed.

(** X9. [n] calls of [decayEpsilon] with one decay rate [r] between 0
    and 1, starting from an exploration rate [e >= 0.01], leave the
    exploration rate at the greater of 0.01 and [e * r^n] (as rationals),
    and nothing else of the instance changes. *)
Theorem repeated_decay_closed_form (n : nat) b (e r : Q) decayRate :
  epsilon b = Num e -> 0.01 <= e ->
  default (Num 0.99) decayRate = Num r -> 0 <= r <= 1 ->
  let b' := this_after (forEach perform (replicate n (DecayEpsilon decayRate)) b) in
  (exists e', epsilon b' = Num e'
     /\ 0.01 <= e'
     /\ (0.01 <= e * power r n -> e' == e * power r n)
     /\ (e * power r n <= 0.01 -> e' == 0.01))
  /\ set_epsilon (epsilon b) b' = b.
Proof.
  intros He Hfloor Hrate Hr. cbn zeta.
  revert b e He Hfloor. induction n as [|n IH]; intros b e He Hfloor.
  - cbn. split; [|destruct b; reflexivity].
    exists e. split; [exact He|]. split; [exact Hfloor|]. split; intros; lra.
  - cbn [replicate].
    destruct (forEach_cons perform (DecayEpsilon decayRate)
                (replicate n (DecayEpsilon decayRate)) b (decay_completes _ b)) as [-> _].
    cbn [perform]. rewrite decayEpsilon_run. cbn [this_after].
    rewrite He, Hrate.
    destruct (decay_step e r) as (e1 & -> & Hbig & Hsmall).
    assert (He1 : 0.01 <= e1).
    { destruct (Qlt_le_dec (e * r) 0.01) as [Hlt|Hge].
      - rewrite Hsmall by lra. lra.
      - rewrite Hbig by lra. lra. }
    destruct (IH (set_epsilon (Num e1) b) e1 eq_refl He1) as [(e' & He' & Hfl & Hb & Hs) Hrest].
    split.
    + exists e'. split; [exact He'|]. split; [exact Hfl|].
      assert (Hp : 0 <= power r n) by (apply power_nonneg; lra).
      cbn [power].
      destruct (Qlt_le_dec (e * r) 0.01) as [Hlt|Hge].
      * assert (E1 : e1 == 0.01) by (apply Hsmall; lra).
        assert (Hpn : power r n <= 1).
        { clear - Hr. induction n as [|n IHn]; cbn [power]; [lra|].
          assert (H0 : 0 <= power r n) by (apply power_nonneg; lra).
          assert (H1 : 0 <= (1 - r) * power r n) by (apply Qmult_le_0_compat; lra).
          lra. }
        assert (Hprod : e * (r * power r n) <= 0.01).
        { assert (H1 : 0 <= (0.01 - e * r) * power r n)
            by (apply Qmult_le_0_compat; lra).
          assert (H2 : 0 <= 0.01 * (1 - power r n))
            by (apply Qmult_le_0_compat; lra).
          lra. }
        assert (Hsm : e1 * power r n <= 0.01).
        { rewrite E1.
          assert (H2 : 0 <= 0.01 * (1 - power r n))
            by (apply Qmult_le_0_compat; lra).
          lra. }
        split.
        -- intros Hge. rewrite (Hs Hsm). lra.
        -- intros _. apply Hs, Hsm.
      * assert (E1 : e1 == e * r) by (apply Hbig; lra).
        assert (Eprod : e1 * power r n == e * (r * power r n)) by (rewrite E1; ring).
        split.
        -- intros Hge'. rewrite <- Eprod. apply Hb. rewrite Eprod. exact Hge'.
        -- intros Hle'. apply Hs. rewrite Eprod. exact Hle'.
    + cbn [epsilon set_epsilon] in Hrest.
      pose proof (f_equal (set_epsilon (Num e)) Hrest) as E.
      transitivity (set_epsilon (Num e) (set_epsilon (Num e1) b)); [exact E|].
      rewrite <- He. destruct b; reflexivity.
Qed.

(** ** getMetrics *)

Lemma sum_of_zeros (l : list number) :
  (forall v, v ∈ l -> v = Num 0) -> fold_left num_add l (Num 0) = Num 0.
Proof.
  induction l as [|x l IH]; intros Hl; [reflexivity|].
  cbn [fold_left]. rewrite (Hl x) by set_solver.
  change (Num 0 + Num 0)%num with (Num 0). apply IH. intros v Hv. apply Hl. set_solver.
Qed.

(** X10. On a freshly constructed instance, whatever the arm list as
    long as no arm is named [__proto__], [getMetrics] reports 0 total
    selections, an overall average reward of 0 (no division takes place),
    the exploration rate given to the constructor, and for each arm in
    configuration order an estimate of 0, a count of 0 and an average of
    0. *)
Theorem getMetrics_of_fresh_instance
    (Object_keys : gmap string number -> list string)
    arms0 alpha0 gamma0 epsilon0 t0 :
  "__proto__" ∉ Offer.id <$> arms0 ->
  exists b0,
    new_QLearningBandit arms0 alpha0 gamma0 epsilon0 t0 = Normal b0
    /\ getMetrics Object_keys b0
       = Run (Normal
                (Metrics.make (Num 0) (Num 0) (default (Num 0.1) epsilon0)
                   (map (fun arm =>
                           ArmPerformance.make (Offer.id arm) (Offer.type arm)
                             (Number (Num 0)) (Number (Num 0)) (Num 0)) arms0)
                   t0)) b0 [].
Proof.
  intros Hproto. eexists. split; [apply new_QLearningBandit_normal|].
  unfold getMetrics, mbind, mret, method_bind, method_ret, bind, ret, read.
  cbn [result this_after warned actionCounts qValues totalReward arms epsilon
       lastUpdated app].
  rewrite sum_of_zeros.
  2: { intros v Hv. unfold Object_values in Hv. apply list_elem_of_omap in Hv.
       destruct Hv as (key & _ & Hv). apply zeroed_values in Hv. exact Hv. }
  change (num_gt (Num 0) (Num 0)) with false. cbv iota.
  f_equal. f_equal. f_equal.
  apply map_ext_in. intros arm Harm.
  assert (Hin : Offer.id arm ∈ Offer.id <$> arms0).
  { apply list_elem_of_fmap. exists arm. split; [reflexivity|].
    apply list_elem_of_In, Harm. }
  assert (Hne : Offer.id arm <> "__proto__") by (intros Heq; rewrite Heq in Hin; contradiction).
  unfold property_get.
  rewrite (lookup_zeroed_elem arms0 ∅ (Offer.id arm) Hne Hin). reflexivity.
Qed.

(** The sum over the keys [keys] of the numbers of calls naming them. *)
Lemma sum_of_counts (o : gmap string number) (f : string -> Z) keys (z : Z) :
  (forall key, key ∈ keys -> o !! key = Some (Num (inject_Z (f key)))) ->
  fold_left num_add (omap (fun key => o !! key) keys) (Num (inject_Z z))
  = Num (inject_Z (z + foldr (fun key s => f key + s) 0 keys)%Z).
Proof.
  revert z. induction keys as [|key keys IH]; intros z Hkeys.
  - cbn. rewrite Z.add_0_r. reflexivity.
  - cbn [omap list_omap]. change (list_omap ?f ?l) with (omap f l).
    rewrite (Hkeys key) by set_solver. cbn [fold_left].
    change (Num (inject_Z z) + Num (inject_Z (f key)))%num
      with (Num (Qplus (inject_Z z) (inject_Z (f key)))).
    rewrite Qplus_inject_Z_eq. rewrite IH by (intros; apply Hkeys; set_solver).
    cbn [foldr]. do 2 f_equal. lia.
Qed.

Lemma length_filter_split {A} (P Q R : A -> Prop)
    `{forall x, Decision (P x)} `{forall x, Decision (Q x)} `{forall x, Decision (R x)}
    (l : list A) :
  (forall x, R x <-> P x \/ Q x) -> (forall x, P x -> Q x -> False) ->
  length (filter R l) = (length (filter P l) + length (filter Q l))%nat.
Proof.
  intros Hor Hdisj. induction l as [|x l IH]; [reflexivity|].
  rewrite !filter_cons.
  destruct (decide (R x)) as [Hr|Hr], (decide (P x)) as [Hp|Hp],
    (decide (Q x)) as [Hq|Hq]; cbn [length]; rewrite ?IH; try lia;
    exfalso; rewrite Hor in Hr; try tauto; eauto.
Qed.

Lemma calls_naming_sum (calls : list update_call) keys :
  NoDup keys ->
  foldr (fun key s => Z.of_nat (calls_naming key calls) + s)%Z 0%Z keys
  = Z.of_nat (length (filter (fun c => c.1.1 ∈ keys) calls)).
Proof.
  induction 1 as [|key keys Hnotin Hnodup IH].
  - cbn [foldr]. replace (filter _ calls) with (@nil update_call); [reflexivity|].
    symmetry. induction calls as [|c calls IHc]; [reflexivity|].
    rewrite filter_cons. destruct (decide (c.1.1 ∈ [])) as [Hin|_]; [inversion Hin|].
    exact IHc.
  - cbn [foldr]. rewrite IH. unfold calls_naming.
    rewrite (length_filter_split (fun c : update_call => c.1.1 = key)
               (fun c : update_call => c.1.1 ∈ keys)
               (fun c : update_call => c.1.1 ∈ key :: keys)).
    + rewrite Nat2Z.inj_add. reflexivity.
    + intros c. apply elem_of_cons.
    + intros c -> Hin. contradiction.
Qed.

(** X11. When no arm is named [__proto__] or [hasOwnProperty]: after
    construction and any sequence of [update] calls, the total selections reported by [getMetrics] is the number of calls that named
    a configured arm (calls with unknown ids are not counted); the overall
    average reward is 0 when there was no such call, and otherwise the
    cumulative reward divided by that number. *)
Theorem getMetrics_counts_learned_updates
    (Object_keys : gmap string number -> list string)
    arms0 alpha0 gamma0 epsilon0 t0 (calls : list update_call) :
  enumerates_own_properties Object_keys ->
  ordinary_ids arms0 ->
  exists b0,
    new_QLearningBandit arms0 alpha0 gamma0 epsilon0 t0 = Normal b0
    /\ exists metrics,
    result (getMetrics Object_keys (this_after (updates calls b0))) = Normal metrics
    /\ let learned := rewards_learned arms0 calls in
       Metrics.totalActions metrics = Num (inject_Z (Z.of_nat (length learned)))
       /\ (learned = [] -> Metrics.avgReward metrics = Num 0)
       /\ (learned <> [] ->
           Metrics.avgReward metrics
           = (fold_left num_add learned (Num 0)
              / Num (inject_Z (Z.of_nat (length learned))))%num).
Proof.
  intros Hown Hids. eexists. split; [apply new_QLearningBandit_normal|].
  match goal with |- context [updates calls ?b] => set (b0 := b) end.
  destruct (new_QLearningBandit_keys arms0 alpha0 gamma0 epsilon0 t0 b0 Hids
              (new_QLearningBandit_normal _ _ _ _ _)) as (Harms & Hinv & Hplain).
  destruct (updates_keep_keys calls b0 Hinv Hplain) as ([_ Hdom] & Harms' & _).
  pose proof (updates_total_reward calls b0 arms0 Hinv Hplain Harms) as Htotal.
  change (totalReward b0) with (Num 0) in Htotal.
  assert (Hcounts : forall key,
            key ∈ Object_keys (actionCounts (this_after (updates calls b0))) ->
            actionCounts (this_after (updates calls b0)) !! key
            = Some (Num (inject_Z (Z.of_nat (calls_naming key calls))))).
  { intros key Hkey. apply (Object_keys_elem _ _ _ Hown) in Hkey.
    apply elem_of_dom in Hkey. rewrite Hdom in Hkey.
    unfold arm_ids in Hkey. rewrite Harms', Harms in Hkey.
    rewrite elem_of_list_to_set in Hkey.
    rewrite (updates_counts calls b0 key 0%Z Hinv Hplain).
    - reflexivity.
    - unfold arm_ids. rewrite Harms, elem_of_list_to_set. exact Hkey.
    - apply lookup_zeroed_elem; [|exact Hkey].
      apply (ordinary_ids_elem arms0 key Hids Hkey). }
  assert (Hsum : fold_left num_add
                   (Object_values Object_keys (actionCounts (this_after (updates calls b0))))
                   (Num 0)
                 = Num (inject_Z (Z.of_nat (length (rewards_learned arms0 calls))))).
  { unfold Object_values.
    etransitivity.
    { exact (sum_of_counts _ (fun key => Z.of_nat (calls_naming key calls)) _ 0%Z Hcounts). }
    rewrite Z.add_0_l, calls_naming_sum.
    - unfold rewards_learned. rewrite length_fmap. do 4 f_equal.
      apply list_filter_iff. intros c.
      rewrite (Object_keys_elem _ _ _ Hown), <- elem_of_dom, Hdom.
      unfold arm_ids. rewrite Harms', Harms. reflexivity.
    - rewrite (Hown _). apply NoDup_elements. }
  clearbody b0.
  unfold getMetrics, mbind, mret, method_bind, method_ret, bind, ret, read.
  cbn [result this_after warned app].
  eexists. split; [reflexivity|]. cbn zeta. cbn [Metrics.totalActions Metrics.avgReward].
  rewrite Hsum, Htotal. split; [reflexivity|]. split.
  - intros ->. reflexivity.
  - intros Hne.
    assert (Hpos : (0 < Z.of_nat (length (rewards_learned arms0 calls)))%Z)
      by (destruct (rewards_learned arms0 calls); [congruence | cbn [length]; lia]).
    unfold num_gt, num_lt.
    assert (Hlt : Qle_bool (inject_Z (Z.of_nat (length (rewards_learned arms0 calls)))) 0
                  = false).
    { apply not_true_is_false. rewrite Qle_bool_iff.
      change 0 with (inject_Z 0). rewrite <- Zle_Qle. lia. }
    rewrite Hlt. reflexivity.
Qed.

(** ** The caller's helpers *)

Lemma clamp_between (lo hi : Q) (x : number) :
  lo <= hi -> is_number x ->
  within lo hi (Math_max (Num lo) (Math_min (Num hi) x)).
Proof.
  intros Hbounds Hx. destruct x as [q|]; [|destruct Hx].
  unfold Math_min. destruct (Qle_bool hi q) eqn:Hhigh; unfold Math_max.
  - rewrite (proj2 (Qle_bool_iff lo hi) Hbounds). unfold within. lra.
  - assert (Hnot : ~ hi <= q) by (rewrite <- Qle_bool_iff, Hhigh; discriminate).
    destruct (Qle_bool lo q) eqn:Hlow; unfold within.
    + apply Qle_bool_iff in Hlow. lra.
    + lra.
Qed.

(** X12. [calculateChurnRisk] returns a number between 0 and 1 for every
    user, usage history and ticket list, also when the user's creation
    date is invalid. *)
Theorem calculateChurnRisk_bounded {Usage : Type} created_at now
    (usage : list Usage) (tickets : list Ticket.t) :
  within 0 1 (calculateChurnRisk created_at now usage tickets).
Proof.
  unfold calculateChurnRisk. apply clamp_between; [lra|].
  repeat match goal with
         | |- context [if ?c then _ else _] => destruct c
         end; exact I.
Qed.

Lemma sentiment_count (label : string) (tickets : list Ticket.t) :
  label <> "" ->
  length (filter (fun s => s = label)
            (omap (fun t => truthy (Ticket.sentiment t)) tickets))
  = length (filter (fun t => Ticket.sentiment t = Some label) tickets).
Proof.
  intros Hlabel. induction tickets as [|t tickets IH]; [reflexivity|].
  cbn [omap list_omap]. change (list_omap ?f ?l) with (omap f l).
  rewrite (filter_cons (fun t => Ticket.sentiment t = Some label)).
  destruct (Ticket.sentiment t) as [s|] eqn:Hs; cbn [truthy].
  - destruct (decide (s = "")) as [->|Hne].
    + destruct (decide (Some "" = Some label)) as [[= <-]|_]; [congruence|].
      exact IH.
    + assert (Ht : truthy (Some s) = Some s) by (destruct s; [congruence | reflexivity]).
      cbn [truthy] in Ht. rewrite Ht. rewrite filter_cons.
      destruct (decide (s = label)) as [->|Hsl].
      * destruct (decide (Some label = Some label)); [|congruence].
        cbn [length]. rewrite IH. reflexivity.
      * destruct (decide (Some s = Some label)) as [[= ->]|_]; [congruence|].
        exact IH.
  - destruct (decide (None = Some label)); [congruence|]. exact IH.
Qed.

(** X13. [analyzeTicketSentiment] is the strict majority between the
    tickets marked negative and those marked positive, 'neutral' on a tie
    (the empty list included): tickets with another or with no sentiment
    do not weigh in, and the order of the tickets does not matter. *)
Theorem analyzeTicketSentiment_is_majority (tickets : list Ticket.t) :
  let negatives := length (filter (fun t => Ticket.sentiment t = Some "negative") tickets) in
  let positives := length (filter (fun t => Ticket.sentiment t = Some "positive") tickets) in
  analyzeTicketSentiment tickets
  = (if (positives <? negatives)%nat then Sentiment.negative
     else if (negatives <? positives)%nat then Sentiment.positive
     else Sentiment.neutral)
  /\ forall reordered, tickets ≡ₚ reordered ->
       analyzeTicketSentiment reordered = analyzeTicketSentiment tickets.
Proof.
  assert (Hmajor : forall l,
    analyzeTicketSentiment l
    = (if (length (filter (fun t => Ticket.sentiment t = Some "positive") l)
           <? length (filter (fun t => Ticket.sentiment t = Some "negative") l))%nat
       then Sentiment.negative
       else if (length (filter (fun t => Ticket.sentiment t = Some "negative") l)
                <? length (filter (fun t => Ticket.sentiment t = Some "positive") l))%nat
       then Sentiment.positive
       else Sentiment.neutral)).
  { intros l. unfold analyzeTicketSentiment.
    rewrite <- (sentiment_count "negative" l) by discriminate.
    rewrite <- (sentiment_count "positive" l) by discriminate.
    destruct (omap _ l) as [|s rest]; reflexivity. }
  cbn zeta. split; [apply Hmajor|].
  intros reordered Hperm. rewrite !Hmajor.
  rewrite <- !(Permutation_length (filter_Permutation _ _ _ Hperm)).
  reflexivity.
Qed.

Lemma Set_add_spec x (s : list string) :
  NoDup s -> NoDup (Set_add x s) /\ forall y, y ∈ Set_add x s <-> y = x \/ y ∈ s.
Proof.
  intros Hs. unfold Set_add. destruct (decide (x ∈ s)) as [Hin|Hout].
  - split; [exact Hs|]. intros y. split; [auto|]. intros [->|Hy]; assumption.
  - split.
    + apply NoDup_app. split; [exact Hs|]. split; [|apply NoDup_singleton].
      intros y Hy Hy'. apply list_elem_of_singleton in Hy'. subst y. contradiction.
    + intros y. rewrite elem_of_app, list_elem_of_singleton. tauto.
Qed.

Lemma add_topics_spec (ts : list string) (s : list string) :
  NoDup s ->
  let s' := fold_left (fun acc topic => Set_add topic acc) ts s in
  NoDup s' /\ forall y, y ∈ s' <-> y ∈ ts \/ y ∈ s.
Proof.
  cbn zeta. revert s. induction ts as [|t ts IH]; intros s Hs.
  - cbn. split; [exact Hs|]. intros y. split; [auto|]. intros [Hy|Hy]; [inversion Hy|exact Hy].
  - cbn [fold_left]. destruct (Set_add_spec t s Hs) as [Hnd Hmem].
    destruct (IH _ Hnd) as [Hnd' Hmem']. split; [exact Hnd'|].
    intros y. rewrite Hmem', Hmem, elem_of_cons. tauto.
Qed.

Lemma extractTopics_from (tickets : list Ticket.t) (s : list string) :
  NoDup s ->
  let s' := fold_left (fun topics ticket =>
      match Ticket.topics ticket with
      | Some ticket_topics => fold_left (fun acc topic => Set_add topic acc) ticket_topics topics
      | None => topics
      end) tickets s in
  NoDup s'
  /\ forall y, y ∈ s' <->
       y ∈ s \/ exists ticket ts, ticket ∈ tickets
                                 /\ Ticket.topics ticket = Some ts /\ y ∈ ts.
Proof.
  cbn zeta. revert s. induction tickets as [|t tickets IH]; intros s Hs.
  - cbn. split; [exact Hs|]. intros y. split; [auto|].
    intros [Hy|(ticket & ts & Hin & _)]; [exact Hy | inversion Hin].
  - cbn [fold_left]. destruct (Ticket.topics t) as [ts|] eqn:Hts.
    + destruct (add_topics_spec ts s Hs) as [Hnd Hmem]. cbn zeta in Hnd, Hmem.
      destruct (IH _ Hnd) as [Hnd' Hmem']. split; [exact Hnd'|].
      intros y. rewrite Hmem', Hmem. split.
      * intros [[Hy|Hy]|(ticket & ts' & Hin & Ht & Hy)].
        -- right. exists t, ts. split; [set_solver|]. auto.
        -- auto.
        -- right. exists ticket, ts'. split; [set_solver|]. auto.
      * intros [Hy|(ticket & ts' & Hin & Ht & Hy)]; [auto|].
        apply elem_of_cons in Hin. destruct Hin as [->|Hin].
        -- rewrite Hts in Ht. injection Ht as <-. auto.
        -- right. eauto.
    + destruct (IH _ Hs) as [Hnd' Hmem']. split; [exact Hnd'|].
      intros y. rewrite Hmem'. split.
      * intros [Hy|(ticket & ts' & Hin & Ht & Hy)]; [auto|].
        right. exists ticket, ts'. split; [set_solver|]. auto.
      * intros [Hy|(ticket & ts' & Hin & Ht & Hy)]; [auto|].
        apply elem_of_cons in Hin. destruct Hin as [->|Hin]; [congruence|].
        right. eauto.
Qed.

(** X14. [extractTopics] returns every topic of every ticket that has a
    topic list, each topic once, and nothing else. *)
Theorem extractTopics_distinct_union (tickets : list Ticket.t) :
  NoDup (extractTopics tickets)
  /\ forall topic,
       topic ∈ extractTopics tickets
       <-> exists ticket ts, ticket ∈ tickets
                             /\ Ticket.topics ticket = Some ts /\ topic ∈ ts.
Proof.
  destruct (extractTopics_from tickets [] (NoDup_nil_2)) as [Hnd Hmem].
  split; [exact Hnd|]. intros topic. unfold extractTopics. rewrite Hmem.
  split; [intros [Hy|H]; [inversion Hy | exact H] | auto].
Qed.

(** ** The learning step of the PUT handler *)

Lemma clamp_inside (x : Q) :
  -1 <= x -> x < 1 -> Math_max (Num (-1)) (Math_min (Num 1) (Num x)) = Num x.
Proof.
  intros Hlo Hhi. unfold Math_min.
  assert (H1 : Qle_bool 1 x = false).
  { apply not_true_is_false. rewrite Qle_bool_iff. lra. }
  rewrite H1. unfold Math_max.
  rewrite (proj2 (Qle_bool_iff (-1) x) Hlo). reflexivity.
Qed.

Lemma calculateReward_without_revenue b armId response (c : Q) :
  Forall (fun arm => is_number (Offer.cost arm)) (arms b) ->
  0 <= c <= 1 ->
  exists q,
    calculateReward armId response (Num 0) (Num c) b = Run (Normal (Num q)) b []
    /\ -0.2 <= q <= 0
    /\ (armId ∈ arm_ids b -> response <> declined -> q == - (0.1 * c)).
Proof.
  intros Hcosts Hc. unfold calculateReward.
  unfold mbind, mret, method_bind, method_ret, bind, ret, read.
  cbn [result this_after warned].
  destruct (List.find _ (arms b)) as [arm|] eqn:Hfind.
  - apply find_arm_known in Hfind. destruct Hfind as [Hin _].
    rewrite Forall_forall in Hcosts. specialize (Hcosts arm Hin).
    destruct (Offer.cost arm) as [k|]; [|destruct Hcosts].
    destruct response; cbn [num_mul num_sub lift2]; unfold num_mul, num_sub, lift2.
    + rewrite clamp_inside by lra. eexists. split; [reflexivity|].
      split; [lra|]. intros _ _. ring.
    + rewrite clamp_inside by lra. eexists. split; [reflexivity|].
      split; [lra|]. intros _ Hne. congruence.
    + rewrite clamp_inside by lra. eexists. split; [reflexivity|].
      split; [lra|]. intros _ _. ring.
  - exists 0. split; [reflexivity|]. split; [lra|].
    intros Hin _. exfalso.
    unfold arm_ids in Hin. rewrite elem_of_list_to_set in Hin.
    destruct (find_arm_configured _ _ Hin) as (arm & Hsome & _). congruence.
Qed.

(** X15. In the PUT handler the revenue passed to [calculateReward] is
    always 0, because the cached offer has no [mrr] property.  So for a
    cached offer with a cost between 0 and 1 the reward learned lies
    between -0.2 and 0, whatever the user's response: an accepted offer
    on a configured arm earns -0.1 times its cost.  With a learning rate
    between 0 and 1, value estimates that are between -0.2 and 0 (a fresh
    instance has them at 0) stay there: no arm's estimate ever rises above
    0 through this handler.  The estimate mapping is taken to have no key
    named hasOwnProperty, as on the handler's bandit, which is built from
    [DEFAULT_OFFERS] and never loads a snapshot. *)
Theorem PUT_learn_never_rewards cached offer response now b (c : Q) :
  CachedOffer.offer cached = Some offer ->
  Offer.cost offer = Num c -> 0 <= c <= 1 ->
  Forall (fun arm => is_number (Offer.cost arm)) (arms b) ->
  hasOwnProperty_inherited b ->
  exists q,
    result (PUT_learn cached response now b) = Normal (Num q)
    /\ -0.2 <= q <= 0
    /\ (Offer.id offer ∈ arm_ids b -> response = "accepted" -> q == - (0.1 * c))
    /\ this_after (PUT_learn cached response now b)
       = this_after (update (Offer.id offer) (Num q) now b)
    /\ forall a, alpha b = Num a -> 0 <= a <= 1 ->
         estimates_within (-0.2) 0 b ->
         estimates_within (-0.2) 0 (this_after (PUT_learn cached response now b)).
Proof.
  intros Hoffer Hcost Hc Hcosts Hplain.
  destruct (calculateReward_without_revenue b (Offer.id offer)
              (as_UserResponse response) c Hcosts Hc) as (q & Hrun & Hq & Haccepted).
  assert (Hlearn : PUT_learn cached response now b
            = let r := update (Offer.id offer) (Num q) now b in
              Run (Normal (Num q)) (this_after r) (warned r)).
  { unfold PUT_learn. rewrite Hoffer, Hcost.
    change (or_else None (Num 0)) with (Num 0).
    unfold mbind, mret, method_bind, method_ret, bind, ret.
    rewrite Hrun. cbn [result this_after warned].
    rewrite update_completes by exact Hplain. cbn [app]. rewrite app_nil_r. reflexivity. }
  exists q. rewrite Hlearn. cbn zeta. cbn [result this_after].
  split; [reflexivity|]. split; [exact Hq|]. split.
  - intros Hin ->. apply Haccepted; [exact Hin | discriminate].
  - split; [reflexivity|]. intros a Halpha Ha Hb.
    apply (update_keeps_estimates_within (-0.2) 0 a); assumption.
Qed.

Lemma reduce_picks_member (o : gmap string number) keys first :
  fold_left (fun a b => if num_gt (ToNumber (o !! a)) (ToNumber (o !! b)) then a else b)
    keys first ∈ first :: keys.
Proof.
  revert first. induction keys as [|next keys IH]; intros first.
  - cbn. set_solver.
  - cbn [fold_left].
    specialize (IH (if num_gt (ToNumber (o !! first)) (ToNumber (o !! next))
                    then first else next)).
    destruct (num_gt _ _); set_solver.
Qed.

(** X16. When [selectAction] exploits on an instance whose estimate
    mapping is not empty but has no configured arm id among its keys (a
    snapshot of another arm configuration was loaded), it returns the
    first configured arm, or [undefined] when there is none. *)
Theorem selectAction_falls_back_to_first_arm
    (Object_keys : gmap string number -> list string) b random1 random2 :
  enumerates_own_properties Object_keys ->
  num_lt random1 (epsilon b) = false ->
  qValues b <> ∅ ->
  (forall key, is_Some (qValues b !! key) -> key ∉ arm_ids b) ->
  selectAction Object_keys random1 random2 b = Run (Normal (arms b !! 0%nat)) b [].
Proof.
  intros Hown Hexploit Hnonempty Hforeign.
  unfold selectAction, mbind, mret, method_bind, method_ret, bind, ret, read.
  cbn [result this_after warned]. rewrite Hexploit.
  cbn [result this_after warned app].
  destruct (Object_keys (qValues b)) as [|first keys] eqn:Hkeys.
  { exfalso. apply Hnonempty. apply map_empty. intros key.
    apply eq_None_not_Some. intros Hsome.
    apply (Object_keys_elem _ _ _ Hown) in Hsome. rewrite Hkeys in Hsome.
    inversion Hsome. }
  unfold reduce, mret, method_ret, ret. cbn [result this_after warned app].
  pose proof (reduce_picks_member (qValues b) keys first) as Hbest.
  set (best := fold_left _ keys first) in *.
  rewrite <- Hkeys in Hbest. apply (Object_keys_elem _ _ _ Hown) in Hbest.
  apply Hforeign in Hbest. unfold arm_ids in Hbest.
  rewrite elem_of_list_to_set in Hbest.
  rewrite (find_arm_unknown _ _ Hbest). reflexivity.
Qed.

(** X17. In exact rational arithmetic (no underflow), when no arm is
    named [__proto__] or [hasOwnProperty]: on a fresh instance with a
    positive learning rate, after one [update] of a configured arm with a
    positive reward, an exploiting [selectAction] returns an arm with the
    id of the rewarded arm. *)
Theorem greedy_choice_after_first_reward
    (Object_keys : gmap string number -> list string)
    arms0 alpha0 gamma0 epsilon0 t0 armId (a r : Q) now random1 random2 :
  enumerates_own_properties Object_keys ->
  ordinary_ids arms0 ->
  armId ∈ Offer.id <$> arms0 ->
  default (Num 0.1) alpha0 = Num a -> 0 < a -> 0 < r ->
  exists b0,
    new_QLearningBandit arms0 alpha0 gamma0 epsilon0 t0 = Normal b0
    /\ let b1 := this_after (update armId (Num r) now b0) in
       num_lt random1 (epsilon b1) = false ->
       exists arm,
         result (selectAction Object_keys random1 random2 b1) = Normal (Some arm)
         /\ arm ∈ arms0 /\ Offer.id arm = armId.
Proof.
  intros Hown Hids Hin Halpha Ha Hr.
  eexists. split; [apply new_QLearningBandit_normal|].
  match goal with |- context [update armId (Num r) now ?b] => set (b0 := b) end.
  cbn zeta. intros Hexploit.
  destruct (new_QLearningBandit_keys arms0 alpha0 gamma0 epsilon0 t0 b0 Hids
              (new_QLearningBandit_normal _ _ _ _ _)) as (Harms & Hinv & Hplain).
  assert (Hq0 : forall key, key ∈ Offer.id <$> arms0 -> qValues b0 !! key = Some (Num 0)).
  { intros key Hkey. apply lookup_zeroed_elem; [|exact Hkey].
    apply (ordinary_ids_elem arms0 key Hids Hkey). }
  assert (Hzero : forall key v, qValues b0 !! key = Some v -> v = Num 0)
    by (intros key v; apply zeroed_values).
  assert (Halpha0 : alpha b0 = Num a) by exact Halpha.
  clearbody b0.
  set (b1 := this_after (update armId (Num r) now b0)) in *.
  assert (Hb1 : qValues b1 = <[armId := Num (0 + a * (r - 0))]> (qValues b0)).
  { subst b1.
    rewrite update_known by (try exact Hplain; rewrite (Hq0 armId Hin); eauto).
    cbn [this_after qValues]. rewrite (Hq0 armId Hin), Halpha0. reflexivity. }
  assert (Harms1 : arms b1 = arms0).
  { subst b1. destruct (update_keeps_configuration b0 armId (Num r) now) as (-> & _).
    exact Harms. }
  destruct (exploit_picks_greatest Object_keys b1 random1 random2 Hown)
    as (arm & Hres & Harm & Hmax).
  - apply update_keeps_keys, Hinv.
  - rewrite Harms1. intros ->. inversion Hin.
  - intros key v. rewrite Hb1.
    destruct (decide (key = armId)) as [->|Hne].
    + rewrite lookup_insert_eq. intros [= <-]. exact I.
    + rewrite lookup_insert_ne by congruence. intros Hv.
      rewrite (Hzero _ _ Hv). exact I.
  - exact Hexploit.
  - exists arm. split; [rewrite Hres; reflexivity|]. rewrite Harms1 in Harm. split; [exact Harm|].
    destruct (decide (Offer.id arm = armId)) as [Heq|Hne]; [exact Heq|exfalso].
    apply list_elem_of_fmap in Hin. destruct Hin as (rewarded & -> & Hrewarded).
    rewrite <- Harms1 in Hrewarded.
    destruct (Hmax rewarded Hrewarded) as (q1 & q2 & H1 & H2 & Hle).
    rewrite Hb1 in H1, H2. rewrite lookup_insert_eq in H1.
    rewrite lookup_insert_ne in H2 by congruence.
    apply Hzero in H2. injection H1 as <-. injection H2 as ->.
    assert (Hpos : 0 < a * r) by (apply Qmult_lt_0_compat; assumption).
    lra.
Qed.

(** ** What the reading methods leave alone *)

(** X18. [selectAction], [getMetrics], [getState] and [calculateReward]
    never change the instance and never log, in any state and whether
    they return or throw; in particular selecting an arm records no
    count. *)
Theorem readers_change_nothing
    (Object_keys : gmap string number -> list string) b :
  (forall random1 random2,
     this_after (selectAction Object_keys random1 random2 b) = b
     /\ warned (selectAction Object_keys random1 random2 b) = [])
  /\ (this_after (getMetrics Object_keys b) = b
      /\ warned (getMetrics Object_keys b) = [])
  /\ (this_after (getState b) = b /\ warned (getState b) = [])
  /\ forall armId response mrrValue offerCost,
       this_after (calculateReward armId response mrrValue offerCost b) = b
       /\ warned (calculateReward armId response mrrValue offerCost b) = [].
Proof.
  split; [|split; [|split]].
  - intros random1 random2.
    unfold selectAction, mbind, mret, method_bind, method_ret, bind, ret, read.
    cbn [result this_after warned].
    destruct (num_lt random1 (epsilon b)); cbn [result this_after warned app].
    + auto.
    + unfold reduce. destruct (Object_keys (qValues b)); cbn; auto.
  - unfold getMetrics, mbind, mret, method_bind, method_ret, bind, ret, read.
    cbn [result this_after warned app]. auto.
  - rewrite getState_run. auto.
  - intros. apply calculateReward_reads_only.
Qed.

(** ** The theorems above at sample inputs *)

Lemma keys_of_dom_enumerates : enumerates_own_properties keys_of_dom.
Proof. intros o. reflexivity. Qed.

Lemma two_arm_ids_ordinary : ordinary_ids [arm_A; arm_B].
Proof. split; apply (bool_decide_unpack _); vm_compute; reflexivity. Qed.

Lemma two_arms_hasOwnProperty_inherited : hasOwnProperty_inherited two_arms.
Proof. vm_compute. reflexivity. Qed.

Lemma count_is_number_of_updates_witness :
  ordinary_ids [arm_A; arm_B]
  /\ "A" ∈ Offer.id <$> [arm_A; arm_B]
  /\ exists b0,
       new_QLearningBandit [arm_A; arm_B] None None None 0%Z = Normal b0
       /\ actionCounts (this_after (updates sample_calls b0)) !! "A"
          = Some (Num (inject_Z (Z.of_nat (calls_naming "A" sample_calls)))).
Proof.
  assert (Hin : "A" ∈ Offer.id <$> [arm_A; arm_B])
    by (apply (bool_decide_unpack _); vm_compute; reflexivity).
  split; [exact two_arm_ids_ordinary|]. split; [exact Hin|].
  exact (count_is_number_of_updates [arm_A; arm_B] None None None 0%Z
           sample_calls "A" two_arm_ids_ordinary Hin).
Defined.

Lemma total_reward_sums_learned_rewards_witness :
  ordinary_ids [arm_A; arm_B]
  /\ exists b0,
       new_QLearningBandit [arm_A; arm_B] None None None 0%Z = Normal b0
       /\ totalReward (this_after (updates sample_calls b0))
          = fold_left num_add (rewards_learned [arm_A; arm_B] sample_calls) (Num 0).
Proof.
  split; [exact two_arm_ids_ordinary|].
  exact (total_reward_sums_learned_rewards [arm_A; arm_B] None None None 0%Z
           sample_calls two_arm_ids_ordinary).
Defined.

Lemma estimates_stay_within_rewards_witness :
  default (Num 0.1) None = Num 0.1
  /\ 0 <= 0.1 <= 1 /\ -1 <= 0 <= 1
  /\ Forall (fun c : update_call => within (-1) 1 c.1.2) sample_calls
  /\ exists b0,
       new_QLearningBandit [arm_A; arm_B] None None None 0%Z = Normal b0
       /\ forall armId estimate,
            qValues (this_after (updates sample_calls b0)) !! armId = Some estimate ->
            within (-1) 1 estimate.
Proof.
  assert (Ha : 0 <= 0.1 <= 1) by lra.
  assert (Hz : -1 <= 0 <= 1) by lra.
  assert (Hcalls : Forall (fun c : update_call => within (-1) 1 c.1.2) sample_calls)
    by (repeat constructor; simpl; lra).
  split; [reflexivity|]. split; [exact Ha|]. split; [exact Hz|].
  split; [exact Hcalls|].
  exact (estimates_stay_within_rewards (-1) 1 0.1 [arm_A; arm_B] None None None 0%Z
           sample_calls eq_refl Ha Hz Hcalls).
Defined.

Lemma repeated_reward_closed_form_witness :
  hasOwnProperty_inherited two_arms
  /\ alpha two_arms = Num 0.1
  /\ qValues two_arms !! "A" = Some (Num 0)
  /\ exists qn,
       qValues (this_after (updates (replicate 3 ("A", Num 1, 9%Z)) two_arms)) !! "A"
       = Some (Num qn)
       /\ qn == 1 + (0 - 1) * power (1 - 0.1) 3.
Proof.
  assert (Hq : qValues two_arms !! "A" = Some (Num 0)) by (vm_compute; reflexivity).
  split; [exact two_arms_hasOwnProperty_inherited|].
  split; [reflexivity|]. split; [exact Hq|].
  exact (proj1 (repeated_reward_closed_form 3 two_arms "A" 0.1 1 0 9%Z
                  two_arms_hasOwnProperty_inherited eq_refl Hq)).
Defined.

Lemma selectAction_returns_configured_arm_witness :
  enumerates_own_properties keys_of_dom
  /\ keys_invariant two_arms /\ arms two_arms <> [] /\ 0 <= 0.75 /\ 0.75 < 1
  /\ exists arm,
       selectAction keys_of_dom (Num 0.05) (Num 0.75) two_arms
       = Run (Normal (Some arm)) two_arms []
       /\ arm ∈ arms two_arms.
Proof.
  assert (Hinv : keys_invariant two_arms) by (split; reflexivity).
  assert (Harms : arms two_arms <> []) by discriminate.
  assert (H0 : 0 <= 0.75) by lra.
  assert (H1 : 0.75 < 1) by lra.
  split; [exact keys_of_dom_enumerates|]. split; [exact Hinv|]. split; [exact Harms|].
  split; [exact H0|]. split; [exact H1|].
  exact (selectAction_returns_configured_arm keys_of_dom two_arms (Num 0.05) 0.75
           keys_of_dom_enumerates Hinv Harms H0 H1).
Defined.

Lemma two_arms_numeric :
  forall key v, qValues two_arms !! key = Some v -> is_number v.
Proof.
  apply map_Forall_insert_2; [exact I|].
  apply (map_Forall_singleton (fun _ v => is_number v)). exact I.
Qed.

Lemma selectAction_exploits_greatest_estimate_witness :
  enumerates_own_properties keys_of_dom
  /\ keys_invariant two_arms /\ arms two_arms <> []
  /\ (forall key v, qValues two_arms !! key = Some v -> is_number v)
  /\ num_lt (Num 0.5) (epsilon two_arms) = false
  /\ exists arm,
       result (selectAction keys_of_dom (Num 0.5) (Num 0.75) two_arms) = Normal (Some arm)
       /\ arm ∈ arms two_arms
       /\ forall other, other ∈ arms two_arms ->
            estimate_le (qValues two_arms) (Offer.id other) (Offer.id arm).
Proof.
  assert (Hinv : keys_invariant two_arms) by (split; reflexivity).
  assert (Harms : arms two_arms <> []) by discriminate.
  assert (Hexploit : num_lt (Num 0.5) (epsilon two_arms) = false) by reflexivity.
  split; [exact keys_of_dom_enumerates|]. split; [exact Hinv|]. split; [exact Harms|].
  split; [exact two_arms_numeric|]. split; [exact Hexploit|].
  exact (selectAction_exploits_greatest_estimate keys_of_dom two_arms (Num 0.5) (Num 0.75)
           keys_of_dom_enumerates Hinv Harms two_arms_numeric Hexploit).
Defined.

Lemma update_without_count_stores_NaN_witness :
  enumerates_own_properties keys_of_dom
  /\ hasOwnProperty_inherited uncounted_A
  /\ "A" <> "__proto__"
  /\ qValues uncounted_A !! "A" = Some (Num 0)
  /\ actionCounts uncounted_A !! "A" = None
  /\ actionCounts (this_after (update "A" (Num 1) 9%Z uncounted_A)) !! "A" = Some NaN
  /\ exists metrics,
       result (getMetrics keys_of_dom (this_after (update "A" (Num 1) 9%Z uncounted_A)))
       = Normal metrics
       /\ Metrics.totalActions metrics = NaN
       /\ Metrics.avgReward metrics = Num 0.
Proof.
  assert (Hq : qValues uncounted_A !! "A" = Some (Num 0)) by (vm_compute; reflexivity).
  assert (Hn : actionCounts uncounted_A !! "A" = None) by (vm_compute; reflexivity).
  assert (Hplain : hasOwnProperty_inherited uncounted_A) by (vm_compute; reflexivity).
  assert (Hproto : "A" <> "__proto__") by discriminate.
  split; [exact keys_of_dom_enumerates|]. split; [exact Hplain|].
  split; [exact Hproto|]. split; [exact Hq|]. split; [exact Hn|].
  exact (proj2 (update_without_count_stores_NaN keys_of_dom uncounted_A "A" (Num 0)
                  (Num 1) 9%Z keys_of_dom_enumerates Hplain Hproto Hq Hn)).
Defined.

Lemma repeated_decay_closed_form_witness :
  epsilon two_arms = Num 0.1 /\ 0.01 <= 0.1
  /\ default (Num 0.99) None = Num 0.99 /\ 0 <= 0.99 <= 1
  /\ exists e',
       epsilon (this_after (forEach perform (replicate 3 (DecayEpsilon None)) two_arms))
       = Num e'
       /\ 0.01 <= e'
       /\ (0.01 <= 0.1 * power 0.99 3 -> e' == 0.1 * power 0.99 3)
       /\ (0.1 * power 0.99 3 <= 0.01 -> e' == 0.01).
Proof.
  assert (He : 0.01 <= 0.1) by lra.
  assert (Hr : 0 <= 0.99 <= 1) by lra.
  split; [reflexivity|]. split; [exact He|]. split; [reflexivity|]. split; [exact Hr|].
  exact (proj1 (repeated_decay_closed_form 3 two_arms 0.1 0.99 None eq_refl He eq_refl Hr)).
Defined.

Lemma getMetrics_of_fresh_instance_witness :
  ("__proto__" ∉ Offer.id <$> [arm_A; arm_B])
  /\ exists b0,
       new_QLearningBandit [arm_A; arm_B] None None None 0%Z = Normal b0
       /\ getMetrics keys_of_dom b0
          = Run (Normal
                   (Metrics.make (Num 0) (Num 0) (Num 0.1)
                      [ ArmPerformance.make "A" discount (Number (Num 0))
                          (Number (Num 0)) (Num 0);
                        ArmPerformance.make "B" pause (Number (Num 0))
                          (Number (Num 0)) (Num 0) ]
                      0%Z)) b0 [].
Proof.
  split; [exact (proj1 two_arm_ids_ordinary)|].
  exact (getMetrics_of_fresh_instance keys_of_dom [arm_A; arm_B] None None None 0%Z
           (proj1 two_arm_ids_ordinary)).
Defined.

Lemma getMetrics_counts_learned_updates_witness :
  enumerates_own_properties keys_of_dom
  /\ ordinary_ids [arm_A; arm_B]
  /\ exists b0,
       new_QLearningBandit [arm_A; arm_B] None None None 0%Z = Normal b0
       /\ exists metrics,
            result (getMetrics keys_of_dom (this_after (updates sample_calls b0)))
            = Normal metrics
            /\ let learned := rewards_learned [arm_A; arm_B] sample_calls in
               Metrics.totalActions metrics = Num (inject_Z (Z.of_nat (length learned)))
               /\ (learned = [] -> Metrics.avgReward metrics = Num 0)
               /\ (learned <> [] ->
                   Metrics.avgReward metrics
                   = (fold_left num_add learned (Num 0)
                      / Num (inject_Z (Z.of_nat (length learned))))%num).
Proof.
  split; [exact keys_of_dom_enumerates|]. split; [exact two_arm_ids_ordinary|].
  exact (getMetrics_counts_learned_updates keys_of_dom [arm_A; arm_B] None None None 0%Z
           sample_calls keys_of_dom_enumerates two_arm_ids_ordinary).
Defined.

Lemma analyzeTicketSentiment_is_majority_witness :
  sample_tickets ≡ₚ rev sample_tickets
  /\ analyzeTicketSentiment (rev sample_tickets) = analyzeTicketSentiment sample_tickets
  /\ analyzeTicketSentiment sample_tickets = Sentiment.negative.
Proof.
  assert (Hperm : sample_tickets ≡ₚ rev sample_tickets)
    by (symmetry; apply Permutation_rev).
  split; [exact Hperm|].
  split; [|reflexivity].
  exact (proj2 (analyzeTicketSentiment_is_majority sample_tickets) _ Hperm).
Defined.

Lemma PUT_learn_never_rewards_witness :
  CachedOffer.offer sample_cached = Some arm_B
  /\ Offer.cost arm_B = Num 0.5 /\ 0 <= 0.5 <= 1
  /\ Forall (fun arm => is_number (Offer.cost arm)) (arms two_arms)
  /\ hasOwnProperty_inherited two_arms
  /\ exists q,
       result (PUT_learn sample_cached "accepted" 9%Z two_arms) = Normal (Num q)
       /\ -0.2 <= q <= 0
       /\ (Offer.id arm_B ∈ arm_ids two_arms -> "accepted" = "accepted" -> q == - (0.1 * 0.5))
       /\ this_after (PUT_learn sample_cached "accepted" 9%Z two_arms)
          = this_after (update (Offer.id arm_B) (Num q) 9%Z two_arms)
       /\ forall a, alpha two_arms = Num a -> 0 <= a <= 1 ->
            estimates_within (-0.2) 0 two_arms ->
            estimates_within (-0.2) 0
              (this_after (PUT_learn sample_cached "accepted" 9%Z two_arms)).
Proof.
  assert (Hc : 0 <= 0.5 <= 1) by lra.
  assert (Hcosts : Forall (fun arm => is_number (Offer.cost arm)) (arms two_arms))
    by (repeat constructor).
  split; [reflexivity|]. split; [reflexivity|]. split; [exact Hc|].
  split; [exact Hcosts|]. split; [exact two_arms_hasOwnProperty_inherited|].
  exact (PUT_learn_never_rewards sample_cached arm_B "accepted" 9%Z two_arms 0.5
           eq_refl eq_refl Hc Hcosts two_arms_hasOwnProperty_inherited).
Defined.

Lemma selectAction_falls_back_to_first_arm_witness :
  enumerates_own_properties keys_of_dom
  /\ num_lt (Num 0.5) (epsilon foreign_estimates) = false
  /\ qValues foreign_estimates <> ∅
  /\ (forall key, is_Some (qValues foreign_estimates !! key) ->
        key ∉ arm_ids foreign_estimates)
  /\ selectAction keys_of_dom (Num 0.5) (Num 0.75) foreign_estimates
     = Run (Normal (Some arm_A)) foreign_estimates [].
Proof.
  assert (Hexploit : num_lt (Num 0.5) (epsilon foreign_estimates) = false) by reflexivity.
  assert (Hne : qValues foreign_estimates <> ∅).
  { intros Hempty. apply (f_equal (fun o : gmap string number => o !! "ghost")) in Hempty.
    vm_compute in Hempty. discriminate. }
  assert (Hforeign : forall key, is_Some (qValues foreign_estimates !! key) ->
            key ∉ arm_ids foreign_estimates).
  { intros key [v Hv]. cbn [foreign_estimates qValues set_qValues set_actionCounts] in Hv.
    apply lookup_singleton_Some in Hv. destruct Hv as [<- _].
    apply (bool_decide_unpack _). vm_compute. reflexivity. }
  split; [exact keys_of_dom_enumerates|]. split; [exact Hexploit|].
  split; [exact Hne|]. split; [exact Hforeign|].
  exact (selectAction_falls_back_to_first_arm keys_of_dom foreign_estimates
           (Num 0.5) (Num 0.75) keys_of_dom_enumerates Hexploit Hne Hforeign).
Defined.

Lemma greedy_choice_after_first_reward_witness :
  enumerates_own_properties keys_of_dom
  /\ ordinary_ids [arm_A; arm_B]
  /\ "B" ∈ Offer.id <$> [arm_A; arm_B]
  /\ default (Num 0.1) None = Num 0.1 /\ 0 < 0.1 /\ 0 < 0.5
  /\ exists b0,
       new_QLearningBandit [arm_A; arm_B] None None None 0%Z = Normal b0
       /\ let b1 := this_after (update "B" (Num 0.5) 9%Z b0) in
          num_lt (Num 0.5) (epsilon b1) = false ->
          exists arm,
            result (selectAction keys_of_dom (Num 0.5) (Num 0.75) b1) = Normal (Some arm)
            /\ arm ∈ [arm_A; arm_B] /\ Offer.id arm = "B".
Proof.
  assert (Hin : "B" ∈ Offer.id <$> [arm_A; arm_B])
    by (apply (bool_decide_unpack _); vm_compute; reflexivity).
  assert (Ha : 0 < 0.1) by lra.
  assert (Hr : 0 < 0.5) by lra.
  split; [exact keys_of_dom_enumerates|]. split; [exact two_arm_ids_ordinary|].
  split; [exact Hin|].
  split; [reflexivity|]. split; [exact Ha|]. split; [exact Hr|].
  exact (greedy_choice_after_first_reward keys_of_dom [arm_A; arm_B] None None None 0%Z
           "B" 0.1 0.5 9%Z (Num 0.5) (Num 0.75) keys_of_dom_enumerates
           two_arm_ids_ordinary Hin eq_refl Ha Hr).
Defined.
